(** * OpenCppCoverage: the unified-diff parser and the Cobertura export

    A shallow embedding of [FileFilter::UnifiedDiffParser]
    (UnifiedDiffParser.cpp) and of the path form of
    [Exporter::CoberturaExporter::Export], followed by the properties
    established about them.

    Conventions of the embedding:
    - [std::wstring] is [string]; a character is an [ascii];
    - C++ [int] is a [Z] kept in the 32-bit two's-complement range by
      [int_wrap] after every arithmetic operation;
    - a C++ exception is a value of [exception]; a function that may throw
      returns a [result];
    - the two [while] loops take a fuel argument; [Parse] supplies enough of
      it (one more than the number of characters left in the stream), which
      [Parse_total] establishes. *)

From Stdlib Require Import ZArith String Ascii List Lia Bool Sorted.
From stdpp Require Import base option strings gmap.
Import ListNotations.

Local Open Scope string_scope.
Local Open Scope Z_scope.
Local Open Scope list_scope.

(** [simpl] may unfold a concatenation whose left operand starts with a
    constructor. *)
#[local] Arguments String.append !_ _ / : simpl nomatch.

(* ===================================================================== *)
(** ** C++ [int] *)

Module Int.

Definition INT_MAX : Z := 2147483647.
Definition INT_MIN : Z := -2147483648.

(** Two's-complement representative of [z] in [INT_MIN .. INT_MAX].  Signed
    overflow is undefined in C++; the embedding takes the wrapped value that
    the compilers of the project produce. *)
Definition int_wrap (z : Z) : Z := (z - INT_MIN) mod 4294967296 + INT_MIN.

Definition add (a b : Z) : Z := int_wrap (a + b).

(** [++i] *)
Definition incr (a : Z) : Z := add a 1.

Definition in_range (z : Z) : Prop := INT_MIN <= z <= INT_MAX.

End Int.

(* ===================================================================== *)
(** ** Strings: the operations of [std::wstring] and boost::algorithm used
       by the parser *)

(** [boost::algorithm::starts_with(input, test)] *)
Definition starts_with (input test : string) : bool := String.prefix test input.

(** [s.find(c)]; [None] stands for [npos]. *)
Fixpoint find (c : ascii) (s : string) : option nat :=
  match s with
  | EmptyString => None
  | String d s' => if Ascii.eqb d c then Some O else S <$> find c s'
  end.

Fixpoint string_drop (n : nat) (s : string) : string :=
  match n, s with
  | O, _ => s
  | S n', EmptyString => EmptyString
  | S n', String _ s' => string_drop n' s'
  end.

Fixpoint string_take (n : nat) (s : string) : string :=
  match n, s with
  | O, _ => EmptyString
  | S n', EmptyString => EmptyString
  | S n', String c s' => String c (string_take n' s')
  end.

(** [boost::algorithm::erase_head(s, n)] for [n >= 0] *)
Definition erase_head (s : string) (n : nat) : string := string_drop n s.

Definition tab : ascii := "009"%char.
Definition newline : ascii := "010"%char.

(* ===================================================================== *)
(** ** Exceptions *)

(** The five message constants of [UnifiedDiffParserException]. *)
Inductive ErrorMessage : Type :=
| ErrorExpectFromFilePrefix
| ErrorCannotReadLine
| ErrorNoFilenameBeforeHunks
| ErrorInvalidHunks
| ErrorContextHunks.

(** [UnifiedDiffParserException] carries the text built by [ThrowError],
    ["Error line " << currentLine_ << ": " << lastLineRead_ << endl <<
    message]; the embedding keeps its three components.  [out_of_range] is
    the standard exception of [std::stoi] and [substr];
    [FileFilterException] is what the [THROW] macro raises. *)
Inductive exception : Type :=
| UnifiedDiffParserException (line : Z) (text : string) (message : ErrorMessage)
| out_of_range
| FileFilterException (what : string).

Inductive result (A : Type) : Type :=
| Ok (a : A)
| Throw (e : exception).
Arguments Ok {A} a.
Arguments Throw {A} e.

(** [s.substr(pos)] and [s.substr(pos, n)]: [out_of_range] when [pos] is
    beyond the end, the count clipped to what is left. *)
Definition substr (s : string) (pos : nat) (n : option nat) : result string :=
  if (String.length s <? pos)%nat then Throw out_of_range
  else Ok (match n with
           | None => string_drop pos s
           | Some n => string_take n (string_drop pos s)
           end).

(* ===================================================================== *)
(** ** [std::wistream] and [std::getline] *)

(** What the parser can observe of an input stream: the characters not yet
    extracted and the two state bits that [getline] sets. *)
Record wistream : Type := mk_wistream {
  rdbuf : string;
  eofbit : bool;
  failbit : bool
}.

(** A freshly opened stream over [text]. *)
Definition wistringstream (text : string) : wistream :=
  {| rdbuf := text; eofbit := false; failbit := false |}.

(** Characters up to the first newline.  The second component is
    [Some rest] when the newline was found (it is extracted and dropped),
    [None] when the buffer ended first. *)
Fixpoint extract_line (buf : string) : string * option string :=
  match buf with
  | EmptyString => (EmptyString, None)
  | String c buf' =>
      if Ascii.eqb c newline then (EmptyString, Some buf')
      else let '(l, r) := extract_line buf' in (String c l, r)
  end.

(** [std::getline(is, str)].  The sentry fails on a stream that is not
    good: [failbit] is set and [str] is left as it was.  Otherwise [str] is
    erased and filled up to the delimiter; reaching the end of the buffer
    sets [eofbit], and extracting nothing at all sets [failbit]. *)
Definition getline (istr : wistream) (str : string) : wistream * string :=
  if eofbit istr || failbit istr then
    ({| rdbuf := rdbuf istr; eofbit := eofbit istr; failbit := true |}, str)
  else
    match extract_line (rdbuf istr) with
    | (l, Some rest) => ({| rdbuf := rest; eofbit := false; failbit := false |}, l)
    | (l, None) =>
        ({| rdbuf := EmptyString; eofbit := true;
            failbit := match l with EmptyString => true | _ => false end |}, l)
    end.

(** [struct UnifiedDiffParser::Stream] *)
Record Stream : Type := mk_Stream {
  istr_ : wistream;
  currentLine_ : Z;
  lastLineRead_ : string
}.

(** The constructor: [currentLine_{0}], [lastLineRead_{0}] (the one-character
    string holding the null character). *)
Definition Stream_new (istr : wistream) : Stream :=
  {| istr_ := istr; currentLine_ := 0;
     lastLineRead_ := String "000"%char EmptyString |}.

(** [Stream::GetLine(line)]: the new stream, the new content of [line] and
    the truth value of the returned stream ([!fail()]). *)
Definition GetLine (stream : Stream) (line : string) : Stream * string * bool :=
  let '(istr', line') := getline (istr_ stream) line in
  ({| istr_ := istr';
      currentLine_ := Int.incr (currentLine_ stream);
      lastLineRead_ := line' |},
   line', negb (failbit istr')).

(** [UnifiedDiffParser::ThrowError(stream, message)] *)
Definition ThrowError {A : Type} (stream : Stream) (message : ErrorMessage) : result A :=
  Throw (UnifiedDiffParserException (currentLine_ stream) (lastLineRead_ stream) message).

(* ===================================================================== *)
(** ** [FileFilter::File] *)

(** Modelled from the spec: the class [File] of File.hpp, whose source is
    not at hand.  The parser output is "a path plus an ordered set of
    ascending line numbers"; [AddSelectedLines] records the given numbers
    in that set. *)
Record File : Type := mk_File {
  GetPath : string;
  GetSelectedLines : list Z
}.

(** The constructor used by [files.emplace_back(path)]. *)
Definition File_new (path : string) : File :=
  {| GetPath := path; GetSelectedLines := [] |}.

Definition SetPath (file : File) (path : string) : File :=
  {| GetPath := path; GetSelectedLines := GetSelectedLines file |}.

(** Insertion into an ascending list without duplicates. *)
Fixpoint set_insert (x : Z) (l : list Z) : list Z :=
  match l with
  | [] => [x]
  | y :: l' =>
      if x <? y then x :: l
      else if x =? y then l
      else y :: set_insert x l'
  end.

Definition AddSelectedLines (file : File) (lines : list Z) : File :=
  {| GetPath := GetPath file;
     GetSelectedLines := fold_left (fun acc x => set_insert x acc) lines (GetSelectedLines file) |}.

(* ===================================================================== *)
(** ** Constants of the parser *)

Definition GitTargetPrefix : string := "b/".
Definition DevNull : string := "/dev/null".
Definition FromFilePrefix : string := "--- ".
Definition ToFilePrefix : string := "+++ ".

(* ===================================================================== *)
(** ** The hunk header *)

(** [struct UnifiedDiffParser::HunksDifferences] *)
Record HunksDifferences : Type := mk_HunksDifferences {
  startFrom : Z;
  countFrom : Z;
  startTo : Z;
  countTo : Z
}.

Module Regex.

(** The character classes [\d] and [\s] of the regular expression. *)
Definition isdigit (c : ascii) : bool :=
  let n := nat_of_ascii c in (48 <=? n)%nat && (n <=? 57)%nat.

Definition isspace (c : ascii) : bool :=
  let n := nat_of_ascii c in Nat.eqb n 32 || ((9 <=? n)%nat && (n <=? 13)%nat).

(** The longest prefix of characters satisfying [p], and what follows. *)
Fixpoint span (p : ascii -> bool) (s : string) : string * string :=
  match s with
  | EmptyString => (EmptyString, EmptyString)
  | String c s' =>
      if p c then let '(a, b) := span p s' in (String c a, b)
      else (EmptyString, s)
  end.

(** A literal piece of the pattern. *)
Definition literal (lit s : string) : option string :=
  if starts_with s lit then Some (string_drop (String.length lit) s) else None.

(** [\s*] *)
Definition spaces (s : string) : string := snd (span isspace s).

(** [(\d+)(?:,(\d+))?]: the two captures and the rest of the subject. *)
Definition range (s : string) : option (string * option string * string) :=
  let '(d, r) := span isdigit s in
  match d with
  | EmptyString => None
  | _ =>
      match r with
      | String ","%char r' =>
          let '(d', r'') := span isdigit r' in
          match d' with
          | EmptyString => Some (d, None, r)
          | _ => Some (d, Some d', r'')
          end
      | _ => Some (d, None, r)
      end
  end.

(** [std::regex_search] with the pattern
    [^@@\s*-(\d+)(?:,(\d+))?\s*\+(\d+)(?:,(\d+))?\s*@@]: the four captures
    ([None] for a group that did not take part in the match).  The pattern
    is anchored at the start and every greedy choice in it is forced (the
    character after a run of digits or spaces can never be matched by what
    a shorter run would leave to the next piece), so that matching from left
    to right with the longest runs is the whole of the backtracking
    search. *)
Definition hunkRegex (subject : string) : option (string * option string * string * option string) :=
  s ← literal "@@" subject;
  s ← literal "-" (spaces s);
  '(m1, m2, s) ← range s;
  s ← literal "+" (spaces s);
  '(m3, m4, s) ← range s;
  _ ← literal "@@" (spaces s);
  Some (m1, m2, m3, m4).

End Regex.

(** The decimal value of a string of digits. *)
Definition digit_value (c : ascii) : Z := Z.of_nat (nat_of_ascii c) - 48.

Fixpoint decimal (acc : Z) (s : string) : Z :=
  match s with
  | EmptyString => acc
  | String c s' => decimal (10 * acc + digit_value c) s'
  end.

(** [std::stoi] on a non-empty string of digits: [out_of_range] when the
    value does not fit an [int]. *)
Definition stoi (s : string) : result Z :=
  let v := decimal 0 s in
  if v <=? Int.INT_MAX then Ok v else Throw out_of_range.

(** Sequencing of computations that may throw, under stdpp's monad
    notation [x ← r; k]. *)
Definition bind {A B : Type} (k : A -> result B) (r : result A) : result B :=
  match r with
  | Ok a => k a
  | Throw e => Throw e
  end.

#[global] Instance result_bind : MBind result := @bind.

(** [UnifiedDiffParser::ExtractHunksDifferences].  [match.size() == 5] and
    the [matched] flags of groups 1 and 3 hold for every match of the
    pattern. *)
Definition ExtractHunksDifferences (stream : Stream) (hunksDifferencesLine : string)
  : result HunksDifferences :=
  match Regex.hunkRegex hunksDifferencesLine with
  | Some (m1, m2, m3, m4) =>
      startFrom ← stoi m1;
      countFrom ← match m2 with Some m => stoi m | None => Ok 1 end;
      startTo ← stoi m3;
      countTo ← match m4 with Some m => stoi m | None => Ok 1 end;
      Ok {| startFrom := startFrom; countFrom := countFrom;
            startTo := startTo; countTo := countTo |}
  | None => ThrowError stream ErrorInvalidHunks
  end.

(* ===================================================================== *)
(** ** The content lines of a hunk *)

(** The body of the loop of [ExtractUpdatedLines]: the new values of
    [currentLine] and [updatedLines] after the line [lineStr]. *)
Definition ExtractUpdatedLines_body (lineStr : string) (currentLine : Z) (updatedLines : list Z)
  : Z * list Z :=
  if negb (starts_with lineStr "-") && negb (starts_with lineStr "\") then
    (Int.incr currentLine,
     if starts_with lineStr "+" then updatedLines ++ [currentLine] else updatedLines)
  else (currentLine, updatedLines).

(** [while (currentLine < endLine && stream.GetLine(lineStr))]; the result
    is the state at the exit of the loop, [None] when the fuel ran out. *)
Fixpoint ExtractUpdatedLines_while (fuel : nat) (stream : Stream) (lineStr : string)
    (currentLine endLine : Z) (updatedLines : list Z) : option (Stream * Z * list Z) :=
  match fuel with
  | O => None
  | S fuel' =>
      if currentLine <? endLine then
        let '(stream', lineStr', ok) := GetLine stream lineStr in
        if ok then
          let '(currentLine', updatedLines') :=
            ExtractUpdatedLines_body lineStr' currentLine updatedLines in
          ExtractUpdatedLines_while fuel' stream' lineStr' currentLine' endLine updatedLines'
        else Some (stream', currentLine, updatedLines)
      else Some (stream, currentLine, updatedLines)
  end.

(** The number of characters not yet extracted from the stream. *)
Abbreviation unread stream := (String.length (rdbuf (istr_ stream))).

(** Enough fuel for a loop that reads from [stream]: every turn but the last
    extracts at least one character. *)
Definition fuel_of (stream : Stream) : nat := S (unread stream).

(** [UnifiedDiffParser::ExtractUpdatedLines] *)
Definition ExtractUpdatedLines (stream : Stream) (hunksDifferencesLine : string)
  : option (result (list Z * Stream)) :=
  match ExtractHunksDifferences stream hunksDifferencesLine with
  | Throw e => Some (Throw e)
  | Ok hunksDifferences =>
      let currentLine := startTo hunksDifferences in
      let endLine := Int.add (startTo hunksDifferences) (countTo hunksDifferences) in
      '(stream', currentLine', updatedLines) ←
        ExtractUpdatedLines_while (fuel_of stream) stream EmptyString currentLine endLine [];
      Some (if currentLine' =? endLine then Ok (updatedLines, stream')
            else ThrowError stream' ErrorContextHunks)
  end.

(** [files.back().AddSelectedLines(updatedLines)] on a non-empty vector. *)
Fixpoint back_AddSelectedLines (files : list File) (updatedLines : list Z) : list File :=
  match files with
  | [] => []
  | [file] => [AddSelectedLines file updatedLines]
  | file :: files' => file :: back_AddSelectedLines files' updatedLines
  end.

(** [UnifiedDiffParser::FillUpdatedLines] *)
Definition FillUpdatedLines (line : string) (files : list File) (stream : Stream)
  : option (result (list File * Stream)) :=
  match files with
  | [] => Some (ThrowError stream ErrorNoFilenameBeforeHunks)
  | _ =>
      r ← ExtractUpdatedLines stream line;
      Some ('(updatedLines, stream') ← r;
            Ok (back_AddSelectedLines files updatedLines, stream'))
  end.

(** [UnifiedDiffParser::ExtractTargetFile].  [endIndex - startIndex] is
    unsigned: below zero it wraps to a count beyond any length, which
    [substr] clips to the rest of the string. *)
Definition ExtractTargetFile (line : string) : result string :=
  let startIndex := String.length ToFilePrefix in
  match find tab line with
  | Some endIndex =>
      substr line startIndex
        (if (endIndex <? startIndex)%nat then None else Some (endIndex - startIndex)%nat)
  | None => substr line startIndex None
  end.

(* ===================================================================== *)
(** ** Post-processing *)

(** [IsGitDetected] *)
Definition IsGitDetected (files : list File) (sourceFileLines : list string)
    (foundGitHeader : bool) : bool :=
  if negb foundGitHeader then false
  else
    let isGitTarget :=
      forallb (fun file => starts_with (GetPath file) GitTargetPrefix) files in
    let isGitSource :=
      forallb (fun line => starts_with line (FromFilePrefix +:+ "a/")) sourceFileLines in
    isGitTarget && isGitSource.

(** The [for] loop of [UpdateFilePathIfGitDetected]. *)
Fixpoint UpdateFilePath_for (files : list File) : result (list File) :=
  match files with
  | [] => Ok []
  | file :: files' =>
      let path := GetPath file in
      if negb (starts_with path GitTargetPrefix) then
        Throw (FileFilterException ("File should have the prefix: " +:+ GitTargetPrefix))
      else
        files'' ← UpdateFilePath_for files';
        Ok (SetPath file (erase_head path (String.length GitTargetPrefix)) :: files'')
  end.

(** [UpdateFilePathIfGitDetected] *)
Definition UpdateFilePathIfGitDetected (files : list File) (sourceFileLines : list string)
    (foundGitHeader : bool) : result (list File) :=
  if IsGitDetected files sourceFileLines foundGitHeader then UpdateFilePath_for files
  else Ok files.

(** [EraseIf]: [std::remove_if] followed by [erase]. *)
Definition EraseIf {A : Type} (container : list A) (fct : A -> bool) : list A :=
  List.filter (fun x => negb (fct x)) container.

(** [RemoveDevNull] *)
Definition RemoveDevNull (files : list File) (sourceFileLines : list string)
  : list File * list string :=
  (EraseIf files (fun file => String.eqb (GetPath file) DevNull),
   EraseIf sourceFileLines (fun line => starts_with line (FromFilePrefix +:+ DevNull))).

(* ===================================================================== *)
(** ** [UnifiedDiffParser::Parse] *)

(** The local variables of [Parse] that live across the turns of its
    loop. *)
Record ParseState : Type := mk_ParseState {
  files : list File;
  sourceFileLines : list string;
  foundGitHeader : bool
}.

Definition ParseState_new : ParseState :=
  {| files := []; sourceFileLines := []; foundGitHeader := false |}.

(** The body of the loop of [Parse], entered after [line] was read. *)
Definition Parse_body (stream : Stream) (line : string) (st : ParseState)
  : option (result (Stream * ParseState)) :=
  if starts_with line "diff --git" then
    Some (Ok (stream, {| files := files st; sourceFileLines := sourceFileLines st;
                         foundGitHeader := true |}))
  else if starts_with line FromFilePrefix then
    let '(stream', nextLine, ok) := GetLine stream EmptyString in
    if ok then
      if starts_with nextLine ToFilePrefix then
        Some (path ← ExtractTargetFile nextLine;
              Ok (stream', {| files := files st ++ [File_new path];
                              sourceFileLines := sourceFileLines st ++ [line];
                              foundGitHeader := foundGitHeader st |}))
      else Some (ThrowError stream' ErrorExpectFromFilePrefix)
    else Some (ThrowError stream' ErrorCannotReadLine)
  else if starts_with line "@@" then
    r ← FillUpdatedLines line (files st) stream;
    Some ('(files', stream') ← r;
          Ok (stream', {| files := files'; sourceFileLines := sourceFileLines st;
                          foundGitHeader := foundGitHeader st |}))
  else Some (Ok (stream, st)).

(** [while (stream.GetLine(line))]: the state when the loop is left, [None]
    when the fuel ran out. *)
Fixpoint Parse_while (fuel : nat) (stream : Stream) (line : string) (st : ParseState)
  : option (result ParseState) :=
  match fuel with
  | O => None
  | S fuel' =>
      let '(stream', line', ok) := GetLine stream line in
      if ok then
        r ← Parse_body stream' line' st;
        match r with
        | Ok (stream'', st') => Parse_while fuel' stream'' line' st'
        | Throw e => Some (Throw e)
        end
      else Some (Ok st)
  end.

(** The reading part of [Parse]: everything up to the end of the loop. *)
Definition Parse_scan (istr : wistream) : option (result ParseState) :=
  let stream := Stream_new istr in
  Parse_while (fuel_of stream) stream EmptyString ParseState_new.

(** What [Parse] does with the state left by the loop. *)
Definition Parse_finish (st : ParseState) : result (list File) :=
  let '(files', sourceFileLines') := RemoveDevNull (files st) (sourceFileLines st) in
  UpdateFilePathIfGitDetected files' sourceFileLines' (foundGitHeader st).

Definition Parse (istr : wistream) : option (result (list File)) :=
  r ← Parse_scan istr;
  Some (st ← r; Parse_finish st).

(** [Parse] on a stream over the given text; a line break is written with
    [nl]. *)
Definition nl : string := String newline EmptyString.

Definition Parse_text (text : string) : option (result (list File)) :=
  Parse (wistringstream text).

(* ===================================================================== *)
(** ** [Exporter::CoberturaExporter::Export], path form *)

Module Exporter.

(** Modelled from the spec: the coverage tree of Plugin/Exporter
    (CoverageData.hpp, ModuleCoverage.hpp, FileCoverage.hpp), whose sources
    are not at hand.  A root with a name and an exit code owns modules, a
    module owns files, a file maps line numbers to an executed flag. *)
Record FileCoverage : Type := mk_FileCoverage {
  file_path : string;
  file_lines : list (Z * bool)
}.

Record ModuleCoverage : Type := mk_ModuleCoverage {
  module_name : string;
  module_files : list FileCoverage
}.

Record CoverageData : Type := mk_CoverageData {
  data_name : string;
  data_exitCode : Z;
  data_modules : list ModuleCoverage
}.

(** What a path of the file system holds. *)
Inductive Node : Type :=
| Directory
| RegularFile (content : string).

(** Modelled from the spec: the exception InvalidOutputFileException of
    Exporter/InvalidOutputFileException.hpp, which names the path. *)
Inductive Outcome : Type :=
| Exported
| InvalidOutputFileException (output : list string).

(** The exporter runs against the coverage tree in memory and the file
    system.  A path is the list of its components below the root; a
    trailing separator shows as a last component that is empty, the empty
    filename of [std::filesystem]. *)
Record Env : Type := mk_Env {
  tree : CoverageData;
  disk : gmap (list string) Node
}.

(** The root is a directory; any other path holds what the map says. *)
Definition node_at (d : gmap (list string) Node) (p : list string) : option Node :=
  match p with
  | [] => Some Directory
  | _ => d !! p
  end.

Definition parent_path (p : list string) : list string := removelast p.

(** A file system in which every entry lies in a directory. *)
Definition well_formed (d : gmap (list string) Node) : Prop :=
  forall p n, d !! p = Some n -> node_at d (parent_path p) = Some Directory.

Definition has_trailing_separator (p : list string) : bool :=
  match last p with
  | Some name => String.eqb name EmptyString
  | None => false
  end.

(** Creation of the directories [done ++ [c1]], [done ++ [c1; c2]], ... that
    are missing; [None] when one of them is a regular file. *)
Fixpoint create_directories_from (done todo : list string) (d : gmap (list string) Node)
  : option (gmap (list string) Node) :=
  match todo with
  | [] => Some d
  | c :: todo' =>
      let dir := done ++ [c] in
      match d !! dir with
      | None => create_directories_from dir todo' (<[dir := Directory]> d)
      | Some Directory => create_directories_from dir todo' d
      | Some (RegularFile _) => None
      end
  end.

Definition create_directories (d : gmap (list string) Node) (p : list string)
  : option (gmap (list string) Node) :=
  create_directories_from [] p d.

(** Opening [p] for writing: refused for a path that names a directory (an
    existing one, or by its trailing separator) and for a path whose parent
    is not a directory; else the file is there and empty. *)
Definition open_for_writing (d : gmap (list string) Node) (p : list string)
  : option (gmap (list string) Node) :=
  if has_trailing_separator p then None
  else
    match node_at d p with
    | Some Directory => None
    | _ =>
        match node_at d (parent_path p) with
        | Some Directory => Some (<[p := RegularFile EmptyString]> d)
        | _ => None
        end
    end.

Section PathForm.

(** The document written for a coverage tree (the stream form of
    [Export]). *)
Variable document : CoverageData -> string.

(** Modelled from the spec: the path form of [CoberturaExporter::Export]
    (CoberturaExporter.cpp is not at hand).  It "creates any missing parent
    directories before opening; if the resolved target is an existing
    directory, or otherwise cannot be opened for writing, fails with a
    distinct invalid output file error naming the path; an existing regular
    file at that path is overwritten".  The coverage tree is only read. *)
Definition Export (output : list string) (env : Env) : Env * Outcome :=
  let d1 := default (disk env) (create_directories (disk env) (parent_path output)) in
  match open_for_writing d1 output with
  | None => ({| tree := tree env; disk := d1 |}, InvalidOutputFileException output)
  | Some d2 =>
      ({| tree := tree env;
          disk := <[output := RegularFile (document (tree env))]> d2 |},
       Exported)
  end.

End PathForm.

End Exporter.

(* ===================================================================== *)
(** ** Vocabulary of the statements *)

(** The text whose lines are [ls], each ended by a line break. *)
Fixpoint text_of_lines (ls : list string) : string :=
  match ls with
  | [] => EmptyString
  | l :: ls' => l +:+ nl +:+ text_of_lines ls'
  end.

(** Every character of [s] satisfies [p]. *)
Fixpoint string_forall (p : ascii -> bool) (s : string) : bool :=
  match s with
  | EmptyString => true
  | String c s' => p c && string_forall p s'
  end.

(** A non-empty run of decimal digits. *)
Definition is_number (s : string) : Prop :=
  s <> EmptyString /\ string_forall Regex.isdigit s = true.

(** The optional count of a range as it is written: nothing, or a comma and
    a number. *)
Definition count_text (m : option string) : string :=
  match m with
  | Some m => "," +:+ m
  | None => EmptyString
  end.

(** The shape of a hunk header, after the spec's
    [@@ -startFrom[,countFrom] +startTo[,countTo] @@] and as wide as the
    pattern of the code takes it: any run of white space, also none, where
    the form shows a blank, and any text after the closing marker. *)
Definition hunk_shape (line m1 : string) (m2 : option string) (m3 : string)
    (m4 : option string) : Prop :=
  is_number m1 /\ is_number m3 /\
  (forall m, m2 = Some m -> is_number m) /\
  (forall m, m4 = Some m -> is_number m) /\
  exists ws1 ws2 ws3 tail : string,
    string_forall Regex.isspace ws1 = true /\
    string_forall Regex.isspace ws2 = true /\
    string_forall Regex.isspace ws3 = true /\
    line = "@@" +:+ ws1 +:+ "-" +:+ m1 +:+ count_text m2 +:+
           ws2 +:+ "+" +:+ m3 +:+ count_text m4 +:+ ws3 +:+ "@@" +:+ tail.

(** The value of an optional count: 1 when it is left out. *)
Definition count_value (m : option string) : Z :=
  match m with
  | Some m => decimal 0 m
  | None => 1
  end.

(** The first character of [s], if any, satisfies [P]. *)
Definition head_is (P : ascii -> Prop) (s : string) : Prop :=
  match s with
  | EmptyString => False
  | String c _ => P c
  end.

(** A file with the git destination prefix taken off its path. *)
Definition strip_git_prefix (file : File) : File :=
  SetPath file (erase_head (GetPath file) (String.length GitTargetPrefix)).

(** [stripped file file']: [file'] is [file] with the destination prefix
    taken off its path, all selected lines kept. *)
Definition stripped (file file' : File) : Prop :=
  GetPath file = GitTargetPrefix +:+ GetPath file' /\
  GetSelectedLines file' = GetSelectedLines file.

(** The three conditions of the git convention on the given vectors. *)
Definition git_convention (fs : list File) (lines : list string) (gitHeader : bool) : Prop :=
  gitHeader = true /\
  Forall (fun file => starts_with (GetPath file) GitTargetPrefix = true) fs /\
  Forall (fun line => starts_with line (FromFilePrefix +:+ "a/") = true) lines.

(** The destination path is not the null-device sentinel. *)
Definition not_DevNull (file : File) : bool := negb (String.eqb (GetPath file) DevNull).

(** The characters of [s] before its first tab. *)
Fixpoint up_to_tab (s : string) : string :=
  match s with
  | EmptyString => EmptyString
  | String c s' => if Ascii.eqb c tab then EmptyString else String c (up_to_tab s')
  end.

(** The registered path after the spec: the content of the to-file line
    after its marker, truncated at the first tab character if present. *)
Definition target_of (toFileLine : string) : string :=
  up_to_tab (string_drop (String.length ToFilePrefix) toFileLine).

(** [reads stream ls stream']: successive calls of [GetLine], all
    successful, take the lines [ls] out of [stream] and leave [stream']. *)
Inductive reads : Stream -> list string -> Stream -> Prop :=
| reads_nil (stream : Stream) : reads stream [] stream
| reads_cons (stream stream1 stream' : Stream) (str l : string) (ls : list string) :
    GetLine stream str = (stream1, l, true) ->
    reads stream1 ls stream' ->
    reads stream (l :: ls) stream'.

(** No further line can be read. *)
Definition exhausted (stream : Stream) : Prop :=
  forall str, snd (GetLine stream str) = false.

(** A content line that stands for a line of the destination file: neither
    a removed line nor a no-newline marker. *)
Definition is_destination_line (l : string) : bool :=
  negb (starts_with l "-") && negb (starts_with l "\").

(** How many of [ls] are destination lines. *)
Definition destination_lines (ls : list string) : Z :=
  Z.of_nat (length (List.filter is_destination_line ls)).

(** The numbers of the added lines among [ls], the first destination line
    having the number [current]. *)
Fixpoint added_lines (current : Z) (ls : list string) : list Z :=
  match ls with
  | [] => []
  | l :: ls' =>
      if is_destination_line l then
        (if starts_with l "+" then [current] else []) ++ added_lines (current + 1) ls'
      else added_lines current ls'
  end.

(** A line as [getline] delivers it: no line break inside. *)
Definition is_line (l : string) : bool :=
  string_forall (fun c => negb (Ascii.eqb c newline)) l.

(** No tab inside. *)
Definition no_tab (s : string) : bool :=
  string_forall (fun c => negb (Ascii.eqb c tab)) s.

(** The stream of a parse that has counted [n] lines, the last text kept
    being [text], with the lines [ls] still ahead. *)
Definition stream_at (n : Z) (text : string) (ls : list string) : Stream :=
  {| istr_ := wistringstream (text_of_lines ls); currentLine_ := n; lastLineRead_ := text |}.

(** The input stream after a read has failed at the end of the text. *)
Definition at_end : wistream := {| rdbuf := EmptyString; eofbit := true; failbit := true |}.

(** [ls] are the content lines of a hunk of [n] destination lines: [n] of
    them are destination lines and no shorter run of them has as many, so
    that the last one, if any, is a destination line. *)
Definition hunk_content (n : Z) (ls : list string) : Prop :=
  destination_lines ls = n /\
  forall ls1 ls2, ls = ls1 ++ ls2 -> ls2 <> [] -> destination_lines ls1 < n.

(** A line that the loop of [Parse] passes over: no line break inside and
    none of the three markers at its front. *)
Definition is_skipped (l : string) : bool :=
  is_line l && negb (starts_with l "diff --git") &&
  negb (starts_with l FromFilePrefix) && negb (starts_with l "@@").

(* ===================================================================== *)
(** * Properties *)

(** ** Strings *)

Lemma append_assoc (a b c : string) : (a +:+ b) +:+ c = a +:+ (b +:+ c).
Proof. induction a as [|x a IH]; simpl; [reflexivity | now rewrite IH]. Qed.

Lemma append_nil_r (a : string) : a +:+ EmptyString = a.
Proof. induction a as [|x a IH]; simpl; [reflexivity | now rewrite IH]. Qed.

Lemma append_length (a b : string) :
  String.length (a +:+ b) = (String.length a + String.length b)%nat.
Proof. induction a as [|x a IH]; simpl; [reflexivity | now rewrite IH]. Qed.

Lemma starts_with_app (p r : string) : starts_with (p +:+ r) p = true.
Proof.
  unfold starts_with. induction p as [|c p IH]; simpl.
  - destruct r; reflexivity.
  - destruct (Ascii.ascii_dec c c) as [_|n]; [exact IH | contradiction].
Qed.

Lemma starts_with_drop (s p : string) :
  starts_with s p = true -> s = p +:+ string_drop (String.length p) s.
Proof.
  unfold starts_with. revert s. induction p as [|c p IH]; intros s H; simpl.
  - reflexivity.
  - destruct s as [|d s]; simpl in H; [discriminate|].
    destruct (Ascii.ascii_dec c d) as [->|]; [|discriminate].
    simpl. f_equal. apply IH, H.
Qed.

Lemma starts_with_iff (s p : string) :
  starts_with s p = true <-> exists r, s = p +:+ r.
Proof.
  split.
  - intros H. eexists. apply starts_with_drop, H.
  - intros [r ->]. apply starts_with_app.
Qed.

Lemma starts_with_trans (s p q : string) :
  starts_with s p = true -> starts_with p q = true -> starts_with s q = true.
Proof.
  rewrite !starts_with_iff. intros [r ->] [r' ->].
  exists (r' +:+ r). apply append_assoc.
Qed.

(** The first character of a line decides between the markers. *)
Lemma starts_with_head (s p : string) (c : ascii) :
  starts_with s (String c p) = true -> exists s', s = String c s'.
Proof.
  unfold starts_with. destruct s as [|d s]; simpl; [discriminate|].
  destruct (Ascii.ascii_dec c d) as [->|]; [|discriminate]. now exists s.
Qed.

Lemma starts_with_other_head (s p q : string) (c d : ascii) :
  c <> d -> starts_with s (String c p) = true -> starts_with s (String d q) = false.
Proof.
  intros Hcd H. apply starts_with_head in H as [s' ->].
  unfold starts_with. simpl.
  destruct (Ascii.ascii_dec d c) as [->|]; [contradiction | reflexivity].
Qed.

Lemma string_drop_app (p r : string) : string_drop (String.length p) (p +:+ r) = r.
Proof. induction p; simpl; auto. Qed.

Lemma string_drop_length (n : nat) (s : string) :
  String.length (string_drop n s) = (String.length s - n)%nat.
Proof. revert s. induction n; intros [|c s]; simpl; auto with arith. Qed.

(* ===================================================================== *)
(** ** C++ [int] *)

Lemma int_wrap_id (z : Z) : Int.in_range z -> Int.int_wrap z = z.
Proof.
  unfold Int.in_range, Int.int_wrap, Int.INT_MIN, Int.INT_MAX. intros H.
  rewrite Z.mod_small; lia.
Qed.

Lemma int_wrap_range (z : Z) : Int.in_range (Int.int_wrap z).
Proof.
  unfold Int.in_range, Int.int_wrap, Int.INT_MIN, Int.INT_MAX.
  pose proof (Z.mod_pos_bound (z - -2147483648) 4294967296 eq_refl). lia.
Qed.

Lemma int_incr_below (c e : Z) :
  Int.INT_MIN <= c -> c < e -> e <= Int.INT_MAX -> Int.incr c = c + 1.
Proof.
  intros. apply int_wrap_id. unfold Int.in_range, Int.INT_MIN, Int.INT_MAX in *. lia.
Qed.

(* ===================================================================== *)
(** ** The stream: what a call of [GetLine] does *)

Lemma extract_line_found (buf l rest : string) :
  extract_line buf = (l, Some rest) ->
  (String.length rest < String.length buf)%nat.
Proof.
  revert l. induction buf as [|c buf IH]; intros l H; simpl in H.
  - discriminate.
  - destruct (Ascii.eqb c newline).
    + injection H as _ <-. simpl. lia.
    + destruct (extract_line buf) as [l' r'] eqn:E.
      injection H as _ ->. specialize (IH _ eq_refl). simpl. lia.
Qed.

(** A successful [GetLine] extracts at least one character. *)
Lemma GetLine_ok_shorter (stream stream' : Stream) (str line : string) :
  GetLine stream str = (stream', line, true) ->
  (String.length (rdbuf (istr_ stream')) < String.length (rdbuf (istr_ stream)))%nat.
Proof.
  unfold GetLine, getline. intros H.
  destruct (eofbit (istr_ stream) || failbit (istr_ stream)).
  - simpl in H. injection H as _ _ ?. discriminate.
  - destruct (extract_line (rdbuf (istr_ stream))) as [l [rest|]] eqn:E.
    + injection H as <- _. simpl. eapply extract_line_found, E.
    + destruct l; simpl in H; [injection H as _ _ ?; discriminate|].
      injection H as <- _. simpl.
      destruct (rdbuf (istr_ stream)); [discriminate | simpl; lia].
Qed.

(** Whatever the outcome, [GetLine] never gives characters back. *)
Lemma GetLine_not_longer (stream stream' : Stream) (str line : string) (ok : bool) :
  GetLine stream str = (stream', line, ok) ->
  (String.length (rdbuf (istr_ stream')) <= String.length (rdbuf (istr_ stream)))%nat.
Proof.
  unfold GetLine, getline. intros H.
  destruct (eofbit (istr_ stream) || failbit (istr_ stream)).
  - injection H as <- _ _. simpl. lia.
  - destruct (extract_line (rdbuf (istr_ stream))) as [l [rest|]] eqn:E.
    + injection H as <- _ _. simpl. apply extract_line_found in E. lia.
    + injection H as <- _ _. simpl. lia.
Qed.

(** The diagnostic fields after a call: the counter is advanced and the
    text is the content of the line variable, read or not. *)
Lemma GetLine_fields (stream stream' : Stream) (str line : string) (ok : bool) :
  GetLine stream str = (stream', line, ok) ->
  currentLine_ stream' = Int.incr (currentLine_ stream) /\ lastLineRead_ stream' = line.
Proof.
  unfold GetLine. destruct (getline (istr_ stream) str) as [i l].
  intros H. injection H as <- <- _. split; reflexivity.
Qed.

(** A failed [GetLine] leaves the text of the line variable either as it was
    or empty. *)
Lemma GetLine_failed_text (stream stream' : Stream) (str line : string) :
  GetLine stream str = (stream', line, false) -> line = str \/ line = EmptyString.
Proof.
  unfold GetLine, getline.
  destruct (eofbit (istr_ stream) || failbit (istr_ stream)).
  - intros [= _ <-]. now left.
  - destruct (extract_line (rdbuf (istr_ stream))) as [l [rest|]].
    + intros H. discriminate H.
    + destruct l; intros H; [injection H as _ <-; now right | discriminate H].
Qed.

(* ===================================================================== *)
(** ** Termination: the fuel handed to the loops is enough *)

Lemma ExtractUpdatedLines_while_total (fuel : nat) :
  forall stream lineStr currentLine endLine updatedLines,
    (unread stream < fuel)%nat ->
    exists stream' currentLine' updatedLines',
      ExtractUpdatedLines_while fuel stream lineStr currentLine endLine updatedLines
        = Some (stream', currentLine', updatedLines')
      /\ (unread stream' <= unread stream)%nat.
Proof.
  induction fuel as [|fuel IH]; intros stream lineStr cur e upd Hfuel; [lia|].
  simpl. destruct (cur <? e).
  - destruct (GetLine stream lineStr) as [[stream' lineStr'] [|]] eqn:EG.
    + destruct (ExtractUpdatedLines_body lineStr' cur upd) as [cur' upd'].
      pose proof (GetLine_ok_shorter _ _ _ _ EG) as Hs.
      destruct (IH stream' lineStr' cur' e upd') as (s2 & c2 & u2 & -> & Hle); [lia|].
      exists s2, c2, u2. split; [reflexivity | lia].
    + exists stream', cur, upd. split; [reflexivity|].
      eapply GetLine_not_longer, EG.
  - exists stream, cur, upd. split; [reflexivity | lia].
Qed.

Lemma ExtractUpdatedLines_total (stream : Stream) (line : string) :
  exists r, ExtractUpdatedLines stream line = Some r /\
    forall updatedLines stream', r = Ok (updatedLines, stream') ->
      (unread stream' <= unread stream)%nat.
Proof.
  unfold ExtractUpdatedLines.
  destruct (ExtractHunksDifferences stream line) as [hd|e].
  - destruct (ExtractUpdatedLines_while_total (fuel_of stream) stream EmptyString
                (startTo hd) (Int.add (startTo hd) (countTo hd)) [])
      as (s' & c' & u' & -> & Hle); [unfold fuel_of; lia|].
    simpl. eexists. split; [reflexivity|].
    intros u s2. destruct (c' =? _); [|discriminate].
    intros [= <- <-]. exact Hle.
  - eexists. split; [reflexivity | discriminate].
Qed.

Lemma FillUpdatedLines_total (line : string) (fs : list File) (stream : Stream) :
  exists r, FillUpdatedLines line fs stream = Some r /\
    forall fs' stream', r = Ok (fs', stream') ->
      (unread stream' <= unread stream)%nat.
Proof.
  unfold FillUpdatedLines. destruct fs as [|f fs].
  - eexists. split; [reflexivity | discriminate].
  - destruct (ExtractUpdatedLines_total stream line) as (r & -> & Hr).
    simpl. eexists. split; [reflexivity|].
    intros fs' s'. destruct r as [[u s2]|e]; simpl; [|discriminate].
    intros [= _ <-]. eapply Hr. reflexivity.
Qed.

Lemma Parse_body_total (stream : Stream) (line : string) (st : ParseState) :
  exists r, Parse_body stream line st = Some r /\
    forall stream' st', r = Ok (stream', st') ->
      (unread stream' <= unread stream)%nat.
Proof.
  unfold Parse_body.
  destruct (starts_with line "diff --git").
  { eexists. split; [reflexivity|]. intros ? ? [= <- _]. lia. }
  destruct (starts_with line FromFilePrefix).
  { destruct (GetLine stream EmptyString) as [[s1 nextLine] [|]] eqn:EG.
    - destruct (starts_with nextLine ToFilePrefix).
      + eexists. split; [reflexivity|]. intros s' st'.
        destruct (ExtractTargetFile nextLine); simpl; [|discriminate].
        intros [= <- _]. eapply GetLine_not_longer, EG.
      + eexists. split; [reflexivity | discriminate].
    - eexists. split; [reflexivity | discriminate]. }
  destruct (starts_with line "@@").
  { destruct (FillUpdatedLines_total line (files st) stream) as (r & -> & Hr).
    simpl. eexists. split; [reflexivity|]. intros s' st'.
    destruct r as [[fs s2]|e]; simpl; [|discriminate].
    intros [= <- _]. eapply Hr. reflexivity. }
  eexists. split; [reflexivity|]. intros ? ? [= <- _]. lia.
Qed.

Lemma Parse_while_total (fuel : nat) :
  forall stream line st,
    (unread stream < fuel)%nat ->
    exists r, Parse_while fuel stream line st = Some r.
Proof.
  induction fuel as [|fuel IH]; intros stream line st Hfuel; [lia|].
  simpl. destruct (GetLine stream line) as [[s1 line'] [|]] eqn:EG.
  - pose proof (GetLine_ok_shorter _ _ _ _ EG) as Hs.
    destruct (Parse_body_total s1 line' st) as (r & -> & Hr). simpl.
    destruct r as [[s2 st']|e]; [|eauto].
    apply IH. specialize (Hr _ _ eq_refl). lia.
  - eauto.
Qed.

(** [Parse] returns or throws on every stream: the fuel never runs out. *)
Lemma Parse_scan_total (istr : wistream) : exists r, Parse_scan istr = Some r.
Proof. apply Parse_while_total. unfold fuel_of. simpl. lia. Qed.

Lemma Parse_total (istr : wistream) : exists r, Parse istr = Some r.
Proof.
  unfold Parse. destruct (Parse_scan_total istr) as [r ->]. simpl. eauto.
Qed.

(* ===================================================================== *)
(** ** The hunk header: what the pattern captures *)

Lemma span_spec (p : ascii -> bool) (s a b : string) :
  Regex.span p s = (a, b) ->
  s = a +:+ b /\ string_forall p a = true /\
  match b with EmptyString => True | String c _ => p c = false end.
Proof.
  revert a b. induction s as [|c s IH]; intros a b H; simpl in H.
  - injection H as <- <-. auto.
  - destruct (p c) eqn:Hc.
    + destruct (Regex.span p s) as [a' b'].
      injection H as <- <-. destruct (IH _ _ eq_refl) as (-> & Ha & Hb).
      simpl. rewrite Hc, Ha. auto.
    + injection H as <- <-. simpl. rewrite Hc. auto.
Qed.

Lemma digit_value_range (c : ascii) : Regex.isdigit c = true -> 0 <= digit_value c <= 9.
Proof.
  unfold Regex.isdigit, digit_value. intros H.
  apply andb_true_iff in H as [H1 H2].
  apply Nat.leb_le in H1, H2. lia.
Qed.

Lemma decimal_nonneg (s : string) :
  forall acc, string_forall Regex.isdigit s = true -> 0 <= acc -> 0 <= decimal acc s.
Proof.
  induction s as [|c s IH]; intros acc H Hacc; simpl in *; [exact Hacc|].
  apply andb_true_iff in H as [Hc Hs].
  apply IH; [exact Hs|]. pose proof (digit_value_range c Hc). lia.
Qed.

Lemma stoi_range (s : string) (v : Z) :
  string_forall Regex.isdigit s = true -> stoi s = Ok v -> 0 <= v <= Int.INT_MAX.
Proof.
  unfold stoi. intros Hs. destruct (decimal 0 s <=? Int.INT_MAX) eqn:E; [|discriminate].
  intros [= <-]. apply Z.leb_le in E. split; [|exact E].
  apply decimal_nonneg; [exact Hs | lia].
Qed.

Lemma range_spec (s m1 rest : string) (m2 : option string) :
  Regex.range s = Some (m1, m2, rest) ->
  is_number m1 /\ match m2 with Some m => is_number m | None => True end /\
  s = m1 +:+ match m2 with Some m => "," +:+ m | None => EmptyString end +:+ rest.
Proof.
  unfold Regex.range, is_number.
  destruct (Regex.span Regex.isdigit s) as [d r] eqn:E1.
  apply span_spec in E1 as (-> & Hd & _).
  destruct d as [|c d]; [discriminate|].
  assert (Hne : String c d <> EmptyString) by discriminate.
  destruct r as [|x r]; [intros [= <- <- <-]; auto|].
  destruct (Ascii.eqb_spec x ","%char) as [->|Hx].
  - destruct (Regex.span Regex.isdigit r) as [d' r'] eqn:E2.
    apply span_spec in E2 as (-> & Hd' & _).
    destruct d' as [|c' d'].
    + intros [= <- <- <-]. auto.
    + intros [= <- <- <-]. repeat split; auto; discriminate.
  - assert (Hother : forall A (u v : A),
        match x with ","%char => u | _ => v end = v).
    { intros A u v. destruct x as [[] [] [] [] [] [] [] []]; try reflexivity.
      now contradiction Hx. }
    rewrite Hother. intros [= <- <- <-]. auto.
Qed.

Lemma literal_spec (lit s r : string) : Regex.literal lit s = Some r -> s = lit +:+ r.
Proof.
  unfold Regex.literal. destruct (starts_with s lit) eqn:E; [|discriminate].
  intros [= <-]. apply starts_with_drop, E.
Qed.

Lemma literal_app (lit r : string) : Regex.literal lit (lit +:+ r) = Some r.
Proof.
  unfold Regex.literal. now rewrite starts_with_app, string_drop_app.
Qed.

Lemma spaces_spec (s : string) :
  exists ws, string_forall Regex.isspace ws = true /\ s = ws +:+ Regex.spaces s.
Proof.
  unfold Regex.spaces. destruct (Regex.span Regex.isspace s) as [a b] eqn:E.
  apply span_spec in E as (-> & Ha & _). now exists a.
Qed.

Lemma span_app (p : ascii -> bool) (a b : string) :
  string_forall p a = true ->
  match b with EmptyString => True | String c _ => p c = false end ->
  Regex.span p (a +:+ b) = (a, b).
Proof.
  intros Ha Hb. induction a as [|c a IH]; simpl in *.
  - destruct b as [|c b]; simpl; [reflexivity | now rewrite Hb].
  - apply andb_true_iff in Ha as [-> Ha]. now rewrite IH.
Qed.

Lemma head_after_spaces (P : ascii -> Prop) (ws lit r : string) :
  string_forall Regex.isspace ws = true ->
  (forall c, Regex.isspace c = true -> P c) ->
  head_is P lit ->
  head_is P (ws +:+ lit +:+ r).
Proof.
  intros Hws HP Hlit. destruct ws as [|c ws]; simpl.
  - destruct lit; [contradiction | exact Hlit].
  - simpl in Hws. apply andb_true_iff in Hws as [Hc _]. apply HP, Hc.
Qed.

Lemma isspace_not_digit (c : ascii) : Regex.isspace c = true -> Regex.isdigit c = false.
Proof. destruct c as [[] [] [] [] [] [] [] []]; vm_compute; congruence. Qed.

Lemma isspace_not_comma (c : ascii) : Regex.isspace c = true -> c <> ","%char.
Proof. destruct c as [[] [] [] [] [] [] [] []]; vm_compute; congruence. Qed.

Lemma spaces_app (ws lit r : string) :
  string_forall Regex.isspace ws = true ->
  head_is (fun c => Regex.isspace c = false) lit ->
  Regex.spaces (ws +:+ lit +:+ r) = lit +:+ r.
Proof.
  intros Hws Hlit. unfold Regex.spaces. rewrite span_app; [reflexivity | exact Hws |].
  destruct lit; [contradiction | exact Hlit].
Qed.

Lemma not_digit_comma_after_spaces (ws lit r : string) :
  string_forall Regex.isspace ws = true ->
  head_is (fun c => Regex.isdigit c = false /\ c <> ","%char) lit ->
  head_is (fun c => Regex.isdigit c = false /\ c <> ","%char) (ws +:+ lit +:+ r).
Proof.
  intros Hws Hlit. apply head_after_spaces; [exact Hws | | exact Hlit].
  intros c Hc. split; [apply isspace_not_digit | apply isspace_not_comma]; exact Hc.
Qed.

Lemma range_app (m1 : string) (m2 : option string) (rest : string) :
  is_number m1 ->
  (forall m, m2 = Some m -> is_number m) ->
  head_is (fun c => Regex.isdigit c = false /\ c <> ","%char) rest ->
  Regex.range (m1 +:+ count_text m2 +:+ rest) = Some (m1, m2, rest).
Proof.
  intros [Hne1 Hd1] H2 Hrest. unfold Regex.range.
  destruct rest as [|x rest]; [contradiction|]. simpl in Hrest. destruct Hrest as [Hxd Hxc].
  destruct m2 as [m|]; simpl.
  - destruct (H2 m eq_refl) as [Hne2 Hd2].
    rewrite span_app; [|exact Hd1|reflexivity].
    destruct m1 as [|c1 m1]; [contradiction|].
    rewrite span_app; [|exact Hd2|exact Hxd].
    destruct m as [|c2 m]; [contradiction | reflexivity].
  - rewrite span_app; [|exact Hd1|exact Hxd].
    destruct m1 as [|c1 m1]; [contradiction|].
    destruct x as [[] [] [] [] [] [] [] []]; try reflexivity. now contradiction Hxc.
Qed.

(** The pattern accepts exactly the lines of the shape, with the numbers
    of the shape as its captures. *)
Lemma hunkRegex_sound (line m1 m3 : string) (m2 m4 : option string) :
  Regex.hunkRegex line = Some (m1, m2, m3, m4) -> hunk_shape line m1 m2 m3 m4.
Proof.
  unfold Regex.hunkRegex. intros H.
  destruct (Regex.literal "@@" line) as [s1|] eqn:E1; [|discriminate]. simpl in H.
  destruct (Regex.literal "-" (Regex.spaces s1)) as [s2|] eqn:E2; [|discriminate]. simpl in H.
  destruct (Regex.range s2) as [[[a1 a2] s3]|] eqn:E3; [|discriminate]. simpl in H.
  destruct (Regex.literal "+" (Regex.spaces s3)) as [s4|] eqn:E4; [|discriminate]. simpl in H.
  destruct (Regex.range s4) as [[[a3 a4] s5]|] eqn:E5; [|discriminate]. simpl in H.
  destruct (Regex.literal "@@" (Regex.spaces s5)) as [s6|] eqn:E6; [|discriminate]. simpl in H.
  injection H as -> -> -> ->.
  apply literal_spec in E1, E2, E4, E6.
  apply range_spec in E3 as (N1 & N2 & E3), E5 as (N3 & N4 & E5).
  destruct (spaces_spec s1) as (ws1 & W1 & S1), (spaces_spec s3) as (ws2 & W2 & S2),
           (spaces_spec s5) as (ws3 & W3 & S3).
  rewrite E2 in S1. rewrite E4 in S2. rewrite E6 in S3.
  split; [exact N1|]. split; [exact N3|].
  split; [intros m ->; exact N2|]. split; [intros m ->; exact N4|].
  exists ws1, ws2, ws3, s6. repeat (split; [assumption|]).
  rewrite E1, S1, E3, S2, E5, S3.
  unfold count_text. destruct m2, m4; simpl; rewrite ?append_assoc; reflexivity.
Qed.

Lemma hunkRegex_complete (line m1 m3 : string) (m2 m4 : option string) :
  hunk_shape line m1 m2 m3 m4 -> Regex.hunkRegex line = Some (m1, m2, m3, m4).
Proof.
  intros (N1 & N3 & N2 & N4 & ws1 & ws2 & ws3 & tail & W1 & W2 & W3 & ->).
  unfold Regex.hunkRegex.
  rewrite literal_app. cbn [mbind option_bind].
  rewrite (spaces_app ws1 "-"); [|exact W1|reflexivity].
  rewrite literal_app. cbn [mbind option_bind].
  rewrite (range_app m1 m2); [|exact N1|exact N2|].
  2:{ apply not_digit_comma_after_spaces; [exact W2|]. split; [reflexivity | discriminate]. }
  cbn [mbind option_bind].
  rewrite (spaces_app ws2 "+"); [|exact W2|reflexivity].
  rewrite literal_app. cbn [mbind option_bind].
  rewrite (range_app m3 m4); [|exact N3|exact N4|].
  2:{ apply not_digit_comma_after_spaces; [exact W3|]. split; [reflexivity | discriminate]. }
  cbn [mbind option_bind].
  rewrite (spaces_app ws3 "@@"); [|exact W3|reflexivity].
  rewrite literal_app. reflexivity.
Qed.

(* ===================================================================== *)
(** ** The hunk header: what [ExtractHunksDifferences] returns *)

Lemma stoi_fits (s : string) : decimal 0 s <= Int.INT_MAX -> stoi s = Ok (decimal 0 s).
Proof.
  unfold stoi. intros H. apply Z.leb_le in H. now rewrite H.
Qed.

Lemma stoi_count_fits (m : option string) :
  count_value m <= Int.INT_MAX ->
  match m with Some m => stoi m | None => Ok 1 end = Ok (count_value m).
Proof. destruct m; simpl; [apply stoi_fits | reflexivity]. Qed.

Lemma ExtractHunksDifferences_of_shape (stream : Stream) (line m1 m3 : string)
    (m2 m4 : option string) :
  hunk_shape line m1 m2 m3 m4 ->
  decimal 0 m1 <= Int.INT_MAX -> count_value m2 <= Int.INT_MAX ->
  decimal 0 m3 <= Int.INT_MAX -> count_value m4 <= Int.INT_MAX ->
  ExtractHunksDifferences stream line =
    Ok {| startFrom := decimal 0 m1; countFrom := count_value m2;
          startTo := decimal 0 m3; countTo := count_value m4 |}.
Proof.
  intros Hs H1 H2 H3 H4. unfold ExtractHunksDifferences.
  rewrite (hunkRegex_complete _ _ _ _ _ Hs).
  rewrite (stoi_fits _ H1), (stoi_fits _ H3),
          (stoi_count_fits _ H2), (stoi_count_fits _ H4).
  reflexivity.
Qed.

Lemma ExtractHunksDifferences_no_shape (stream : Stream) (line : string) :
  (forall m1 m2 m3 m4, ~ hunk_shape line m1 m2 m3 m4) ->
  ExtractHunksDifferences stream line = ThrowError stream ErrorInvalidHunks.
Proof.
  intros H. unfold ExtractHunksDifferences.
  destruct (Regex.hunkRegex line) as [[[[m1 m2] m3] m4]|] eqn:E; [|reflexivity].
  exfalso. apply (H m1 m2 m3 m4), hunkRegex_sound, E.
Qed.

(** The four numbers of an accepted header are non-negative [int]s. *)
Lemma ExtractHunksDifferences_range (stream : Stream) (line : string) (hd : HunksDifferences) :
  ExtractHunksDifferences stream line = Ok hd ->
  (0 <= startFrom hd <= Int.INT_MAX) /\ (0 <= countFrom hd <= Int.INT_MAX) /\
  (0 <= startTo hd <= Int.INT_MAX) /\ (0 <= countTo hd <= Int.INT_MAX).
Proof.
  unfold ExtractHunksDifferences.
  destruct (Regex.hunkRegex line) as [[[[m1 m2] m3] m4]|] eqn:E; [|discriminate].
  apply hunkRegex_sound in E as ([_ D1] & [_ D3] & N2 & N4 & _).
  destruct (stoi m1) as [v1|] eqn:E1; [|discriminate]. cbn [mbind result_bind bind].
  assert (C : forall m v, (forall x, m = Some x -> is_number x) ->
            match m with Some x => stoi x | None => Ok 1 end = Ok v ->
            0 <= v <= Int.INT_MAX).
  { intros [x|] v Hm Hv.
    - destruct (Hm x eq_refl) as [_ Dx]. eapply stoi_range; eassumption.
    - injection Hv as <-. unfold Int.INT_MAX. lia. }
  destruct (match m2 with Some m => stoi m | None => Ok 1 end) as [v2|] eqn:E2;
    [|discriminate]. cbn [mbind result_bind bind].
  destruct (stoi m3) as [v3|] eqn:E3; [|discriminate]. cbn [mbind result_bind bind].
  destruct (match m4 with Some m => stoi m | None => Ok 1 end) as [v4|] eqn:E4;
    [|discriminate]. cbn [mbind result_bind bind].
  intros [= <-]. simpl.
  pose proof (stoi_range _ _ D1 E1). pose proof (stoi_range _ _ D3 E3).
  pose proof (C _ _ N2 E2). pose proof (C _ _ N4 E4).
  repeat split; lia.
Qed.

Lemma int_add_fits (a b : Z) :
  0 <= a -> 0 <= b -> a + b <= Int.INT_MAX -> Int.add a b = a + b.
Proof.
  intros. apply int_wrap_id. unfold Int.in_range, Int.INT_MIN, Int.INT_MAX in *. lia.
Qed.

(* ===================================================================== *)
(** ** Selected lines of a file *)

Lemma AddSelectedLines_nil (file : File) : AddSelectedLines file [] = file.
Proof. destruct file. reflexivity. Qed.

Lemma back_AddSelectedLines_nil (fs : list File) : back_AddSelectedLines fs [] = fs.
Proof.
  induction fs as [|f fs IH]; [reflexivity|]. simpl.
  destruct fs as [|g fs]; [now rewrite AddSelectedLines_nil | now rewrite IH].
Qed.

Lemma back_AddSelectedLines_length (fs : list File) (u : list Z) :
  length (back_AddSelectedLines fs u) = length fs.
Proof.
  induction fs as [|f fs IH]; [reflexivity|]. simpl.
  destruct fs as [|g fs]; [reflexivity | simpl in *; now rewrite IH].
Qed.

Lemma back_AddSelectedLines_paths (fs : list File) (u : list Z) :
  map GetPath (back_AddSelectedLines fs u) = map GetPath fs.
Proof.
  induction fs as [|f fs IH]; [reflexivity|]. simpl.
  destruct fs as [|g fs]; [reflexivity | simpl in *; now rewrite IH].
Qed.

(* ===================================================================== *)
(** ** C10: a hunk that declares no destination line *)

(** C10, as stated, fails.  The first header declares the destination
    count zero and is not accepted: its first number does not fit an [int]
    and [std::stoi] throws.  The second text has a hunk of destination
    count zero whose only line is the removed line [-- gone]: the hunk
    takes no line, so the loop of [Parse] reads that line, finds the
    from-file marker at its front and throws. *)
Lemma C10_zero_count_counterexample :
  (forall stream,
      ExtractHunksDifferences stream "@@ -99999999999,1 +5,0 @@" = Throw out_of_range) /\
  Parse_text (text_of_lines ["--- a"; "+++ b"; "@@ -1,1 +0,0 @@"; "--- gone"])
    = Some (Throw (UnifiedDiffParserException 5 "" ErrorCannotReadLine)).
Proof. split; [intros stream|]; vm_compute; reflexivity. Qed.

(** C10, amended.  For every header of the shape
    [@@ -startFrom[,countFrom] +startTo,countTo @@] whose destination count
    is zero (a pure deletion) and whose other numbers fit an [int], read
    once a file has been registered: the header is accepted with
    [countTo = 0]; [ExtractUpdatedLines] returns without reading a single
    line from the stream and without throwing, its list of updated lines
    empty; the active file keeps exactly the selected lines it had; and the
    turn of the loop of [Parse] for that line ends normally, stream and
    state as they were.  The lines of the hunk stay in the stream for the
    turns that follow. *)
Theorem C10_zero_destination_count (stream : Stream) (header m1 m3 zero : string)
    (m2 : option string) (st : ParseState) :
  hunk_shape header m1 m2 m3 (Some zero) ->
  decimal 0 zero = 0 ->
  decimal 0 m1 <= Int.INT_MAX -> count_value m2 <= Int.INT_MAX ->
  decimal 0 m3 <= Int.INT_MAX ->
  files st <> [] ->
  ExtractHunksDifferences stream header =
    Ok {| startFrom := decimal 0 m1; countFrom := count_value m2;
          startTo := decimal 0 m3; countTo := 0 |} /\
  ExtractUpdatedLines stream header = Some (Ok ([], stream)) /\
  FillUpdatedLines header (files st) stream = Some (Ok (files st, stream)) /\
  Parse_body stream header st = Some (Ok (stream, st)).
Proof.
  intros Hshape Hzero H1 H2 H3 Hfs.
  assert (Hhd : ExtractHunksDifferences stream header =
                  Ok {| startFrom := decimal 0 m1; countFrom := count_value m2;
                        startTo := decimal 0 m3; countTo := 0 |}).
  { rewrite (ExtractHunksDifferences_of_shape stream header m1 m3 m2 (Some zero) Hshape);
      simpl; rewrite ?Hzero; try assumption; [reflexivity|].
    unfold Int.INT_MAX. lia. }
  assert (HE : ExtractUpdatedLines stream header = Some (Ok ([], stream))).
  { unfold ExtractUpdatedLines. rewrite Hhd.
    destruct (ExtractHunksDifferences_range _ _ _ Hhd) as (_ & _ & Hs & _).
    cbv zeta. cbn [startTo countTo] in *.
    rewrite int_add_fits; [|lia|lia|lia].
    rewrite Z.add_0_r. unfold fuel_of. simpl.
    rewrite Z.ltb_irrefl. simpl. now rewrite Z.eqb_refl. }
  assert (HF : FillUpdatedLines header (files st) stream = Some (Ok (files st, stream))).
  { unfold FillUpdatedLines. destruct (files st) as [|f fs]; [contradiction|].
    rewrite HE. cbn -[back_AddSelectedLines]. now rewrite back_AddSelectedLines_nil. }
  repeat (split; [assumption|]).
  assert (Hat : starts_with header "@@" = true).
  { destruct Hshape as (_ & _ & _ & _ & ws1 & ws2 & ws3 & tail & _ & _ & _ & ->).
    apply starts_with_app. }
  assert (Hgit : starts_with header "diff --git" = false).
  { eapply (starts_with_other_head header _ _ "@"%char "d"%char); [discriminate|exact Hat]. }
  assert (Hfrom : starts_with header FromFilePrefix = false).
  { eapply (starts_with_other_head header _ _ "@"%char "-"%char); [discriminate|exact Hat]. }
  unfold Parse_body. rewrite Hgit, Hfrom, Hat, HF. cbn. now destruct st.
Qed.

Lemma C10_zero_destination_count_witness :
  let stream := stream_at 3 "@@ -3,2 +2,0 @@" ["-gone"; "-gone too"] in
  let st := {| files := [{| GetPath := "b/x"; GetSelectedLines := [4] |}];
               sourceFileLines := ["--- a/x"]; foundGitHeader := false |} in
  ExtractHunksDifferences stream "@@ -3,2 +2,0 @@" =
    Ok {| startFrom := 3; countFrom := 2; startTo := 2; countTo := 0 |} /\
  ExtractUpdatedLines stream "@@ -3,2 +2,0 @@" = Some (Ok ([], stream)) /\
  FillUpdatedLines "@@ -3,2 +2,0 @@" (files st) stream = Some (Ok (files st, stream)) /\
  Parse_body stream "@@ -3,2 +2,0 @@" st = Some (Ok (stream, st)).
Proof.
  intros stream st.
  apply (C10_zero_destination_count stream "@@ -3,2 +2,0 @@" "3" "2" "0" (Some "2") st).
  - unfold hunk_shape, is_number.
    split; [split; [discriminate | reflexivity]|].
    split; [split; [discriminate | reflexivity]|].
    split; [intros m [= <-]; split; [discriminate | reflexivity]|].
    split; [intros m [= <-]; split; [discriminate | reflexivity]|].
    exists " ", " ", " ", EmptyString. repeat split; reflexivity.
  - reflexivity.
  - vm_compute. discriminate.
  - vm_compute. discriminate.
  - vm_compute. discriminate.
  - discriminate.
Defined.

(* ===================================================================== *)
(** ** C2: the destination counter of a hunk *)

Ltac int_lia := unfold Int.in_range, Int.INT_MIN, Int.INT_MAX in *; lia.

(** C2.  For the input made of a from-file line, a to-file line naming
    [foo.txt], the header [@@ -1,2 +1,3 @@], a context line, a removed line
    and two added lines, [Parse] returns exactly one file, with path
    [foo.txt] and selected lines 2 and 3.  The counter of the destination
    line starts at [startTo]; inside the loop (that is, below [endLine]) a
    context line advances it by one and records nothing, a removed line
    and a no-newline marker leave everything as it is, and an added line
    records the current value and then advances the counter by one. *)
Theorem C2_destination_counter (lineStr : string) (currentLine endLine : Z)
    (updatedLines : list Z) :
  Int.INT_MIN <= currentLine -> currentLine < endLine -> endLine <= Int.INT_MAX ->
  Parse_text (text_of_lines
      ["--- foo.txt"; "+++ foo.txt"; "@@ -1,2 +1,3 @@";
       " kept"; "-dropped"; "+first"; "+second"])
    = Some (Ok [{| GetPath := "foo.txt"; GetSelectedLines := [2; 3] |}]) /\
  (forall stream header hd,
      ExtractHunksDifferences stream header = Ok hd ->
      ExtractUpdatedLines stream header =
        '(stream', currentLine', updatedLines') ←
          ExtractUpdatedLines_while (fuel_of stream) stream EmptyString
            (startTo hd) (Int.add (startTo hd) (countTo hd)) [];
        Some (if currentLine' =? Int.add (startTo hd) (countTo hd)
              then Ok (updatedLines', stream')
              else ThrowError stream' ErrorContextHunks)) /\
  (starts_with lineStr "+" = true ->
     ExtractUpdatedLines_body lineStr currentLine updatedLines
       = (currentLine + 1, updatedLines ++ [currentLine])) /\
  (starts_with lineStr "-" = true \/ starts_with lineStr "\" = true ->
     ExtractUpdatedLines_body lineStr currentLine updatedLines
       = (currentLine, updatedLines)) /\
  (starts_with lineStr "+" = false -> starts_with lineStr "-" = false ->
   starts_with lineStr "\" = false ->
     ExtractUpdatedLines_body lineStr currentLine updatedLines
       = (currentLine + 1, updatedLines)).
Proof.
  intros Hlo Hlt Hhi.
  assert (Hincr : Int.incr currentLine = currentLine + 1)
    by (eapply int_incr_below; eassumption).
  split; [vm_compute; reflexivity|].
  split; [intros stream header hd Hhd; unfold ExtractUpdatedLines; now rewrite Hhd|].
  unfold ExtractUpdatedLines_body. rewrite Hincr.
  split; [|split].
  - intros Hplus.
    rewrite (starts_with_other_head lineStr "" "" "+"%char "-"%char) by (discriminate || exact Hplus).
    rewrite (starts_with_other_head lineStr "" "" "+"%char "\"%char) by (discriminate || exact Hplus).
    now rewrite Hplus.
  - intros [H|H]; rewrite H; simpl; [reflexivity | now rewrite andb_false_r].
  - intros Hp Hm Hb. now rewrite Hp, Hm, Hb.
Qed.

Lemma C2_destination_counter_witness :
  (Int.INT_MIN <= 7 /\ 7 < 9 /\ 9 <= Int.INT_MAX) /\
  ExtractUpdatedLines_body "+new" 7 [5] = (8, [5; 7]).
Proof.
  assert (H1 : Int.INT_MIN <= 7) by int_lia.
  assert (H2 : 7 < 9) by lia.
  assert (H3 : 9 <= Int.INT_MAX) by int_lia.
  split; [auto|].
  exact (proj1 (proj2 (proj2 (C2_destination_counter "+new" 7 9 [5] H1 H2 H3))) eq_refl).
Defined.

(* ===================================================================== *)
(** ** C8: what a failure at the end of the input reports *)

(** C8.  Evaluation of [Parse] on inputs that end too early.  A from-file
    line that is the only line of the input is reported as line 2 with an
    empty text; a hunk of four lines that lacks one line is reported as
    line 5, with an empty text when the input ends with a line break and
    with the text of line 4 when it does not.  In each case the number is
    one more than the number of lines of the input. *)
Theorem C8_end_of_input_report :
  Parse_text (text_of_lines ["--- a/foo.txt"])
    = Some (Throw (UnifiedDiffParserException 2 "" ErrorCannotReadLine)) /\
  Parse_text (text_of_lines ["--- a"; "+++ a"; "@@ -1 +1,2 @@"; "+x"])
    = Some (Throw (UnifiedDiffParserException 5 "" ErrorContextHunks)) /\
  Parse_text (text_of_lines ["--- a"; "+++ a"; "@@ -1 +1,2 @@"] +:+ "+x")
    = Some (Throw (UnifiedDiffParserException 5 "+x" ErrorContextHunks)).
Proof. repeat split; vm_compute; reflexivity. Qed.

(* ===================================================================== *)
(** ** Post-processing *)

Lemma forallb_Forall {A : Type} (p : A -> bool) (l : list A) :
  forallb p l = true <-> Forall (fun x => p x = true) l.
Proof.
  rewrite forallb_forall, List.Forall_forall. reflexivity.
Qed.

Lemma IsGitDetected_iff (fs : list File) (lines : list string) (gitHeader : bool) :
  IsGitDetected fs lines gitHeader = true <-> git_convention fs lines gitHeader.
Proof.
  unfold IsGitDetected, git_convention. destruct gitHeader; simpl.
  - rewrite andb_true_iff, !forallb_Forall. tauto.
  - split; [discriminate | intros [? _]; discriminate].
Qed.

Lemma strip_git_prefix_stripped (file : File) :
  starts_with (GetPath file) GitTargetPrefix = true -> stripped file (strip_git_prefix file).
Proof.
  intros H. split; [|reflexivity]. apply starts_with_drop in H. exact H.
Qed.

(** Under the convention the loop over the files never throws. *)
Lemma UpdateFilePath_for_ok (fs : list File) :
  Forall (fun file => starts_with (GetPath file) GitTargetPrefix = true) fs ->
  UpdateFilePath_for fs = Ok (map strip_git_prefix fs).
Proof.
  induction 1 as [|f fs Hf _ IH]; [reflexivity|].
  simpl. rewrite Hf, IH. reflexivity.
Qed.

Lemma UpdateFilePathIfGitDetected_ok (fs : list File) (lines : list string) (gitHeader : bool) :
  UpdateFilePathIfGitDetected fs lines gitHeader =
    Ok (if IsGitDetected fs lines gitHeader then map strip_git_prefix fs else fs).
Proof.
  unfold UpdateFilePathIfGitDetected.
  destruct (IsGitDetected fs lines gitHeader) eqn:E; [|reflexivity].
  apply IsGitDetected_iff in E as (_ & Hfs & _). now apply UpdateFilePath_for_ok.
Qed.

Lemma Forall2_strip (fs : list File) :
  Forall (fun file => starts_with (GetPath file) GitTargetPrefix = true) fs ->
  Forall2 stripped fs (map strip_git_prefix fs).
Proof.
  induction 1 as [|f fs Hf _ IH]; constructor; [|exact IH].
  apply strip_git_prefix_stripped, Hf.
Qed.

Lemma RemoveDevNull_files (fs : list File) (lines : list string) :
  fst (RemoveDevNull fs lines) = List.filter not_DevNull fs.
Proof. reflexivity. Qed.

Lemma Parse_of_scan (istr : wistream) (st : ParseState) :
  Parse_scan istr = Some (Ok st) -> Parse istr = Some (Parse_finish st).
Proof. unfold Parse. now intros ->. Qed.

(** The post-processing never throws: it returns the files left by the
    filter, each stripped when the convention holds on what the filter
    left, each as it is otherwise. *)
Lemma Parse_finish_ok (st : ParseState) :
  Parse_finish st =
    Ok (let '(fs, lines) := RemoveDevNull (files st) (sourceFileLines st) in
        if IsGitDetected fs lines (foundGitHeader st)
        then map strip_git_prefix fs else fs).
Proof.
  unfold Parse_finish.
  destruct (RemoveDevNull (files st) (sourceFileLines st)) as [fs lines].
  apply UpdateFilePathIfGitDetected_ok.
Qed.

Lemma Forall2_In_l {A B : Type} (R : A -> B -> Prop) (l : list A) (k : list B) (x : A) :
  Forall2 R l k -> In x l -> exists y, In y k /\ R x y.
Proof.
  induction 1 as [|a b l k Hab _ IH]; intros Hin; [contradiction|].
  destruct Hin as [<-|Hin].
  - exists b. split; [now left | exact Hab].
  - destruct (IH Hin) as (y & Hy & Hxy). exists y. split; [now right | exact Hxy].
Qed.

Lemma Forall2_same {A : Type} (R : A -> A -> Prop) (l : list A) :
  (forall x, R x x) -> Forall2 R l l.
Proof. intros HR. induction l; constructor; auto. Qed.

(** What one turn of the loop of [Parse] does to the two vectors: it leaves
    the from-file lines and the paths as they are, or it appends one file
    together with the from-file line it was read after. *)
Lemma Parse_body_vectors (stream stream' : Stream) (line : string) (st st' : ParseState) :
  Parse_body stream line st = Some (Ok (stream', st')) ->
  (sourceFileLines st' = sourceFileLines st /\
   map GetPath (files st') = map GetPath (files st)) \/
  (exists path, files st' = files st ++ [File_new path] /\
                sourceFileLines st' = sourceFileLines st ++ [line]).
Proof.
  unfold Parse_body.
  destruct (starts_with line "diff --git"); [intros [= _ <-]; now left|].
  destruct (starts_with line FromFilePrefix).
  { destruct (GetLine stream EmptyString) as [[s1 nextLine] [|]]; [|discriminate].
    destruct (starts_with nextLine ToFilePrefix); [|discriminate].
    destruct (ExtractTargetFile nextLine) as [path|]; [|discriminate].
    intros [= _ <-]. right. now exists path. }
  destruct (starts_with line "@@"); [|intros [= _ <-]; now left].
  unfold FillUpdatedLines. destruct (files st) as [|f fs] eqn:Ef; [discriminate|].
  destruct (ExtractUpdatedLines stream line) as [[[u s2]|]|]; try discriminate.
  cbn -[back_AddSelectedLines]. intros [= _ <-]. left.
  split; [reflexivity|]. exact (back_AddSelectedLines_paths (f :: fs) u).
Qed.

(** Files and from-file lines are appended together: at the end of the loop
    the two vectors have the same length, the file at an index being the
    one registered after the from-file line at that index. *)
Lemma Parse_while_paired (fuel : nat) :
  forall stream line st st',
    length (files st) = length (sourceFileLines st) ->
    Parse_while fuel stream line st = Some (Ok st') ->
    length (files st') = length (sourceFileLines st').
Proof.
  induction fuel as [|fuel IH]; intros stream line st st' Hlen; [discriminate|].
  simpl. destruct (GetLine stream line) as [[s1 line'] [|]]; [|now intros [= <-]].
  destruct (Parse_body s1 line' st) as [[[s2 st2]|]|] eqn:EB; try discriminate.
  simpl. apply IH.
  apply Parse_body_vectors in EB as [[E1 E2]|(path & E1 & E2)].
  - rewrite E1, <- Hlen. rewrite <- (length_map GetPath), E2. apply length_map.
  - rewrite E1, E2, !length_app. simpl. lia.
Qed.

Lemma Parse_scan_paired (istr : wistream) (st : ParseState) :
  Parse_scan istr = Some (Ok st) -> length (files st) = length (sourceFileLines st).
Proof. apply Parse_while_paired. reflexivity. Qed.

(* ===================================================================== *)
(** ** C1: a new file is kept *)

(** C1, as stated, fails: the from-file line of the only section references
    the null device, the to-file line names [new.txt], and [Parse] returns
    the file of that section with both of its added lines. *)
Lemma C1_new_file_counterexample :
  starts_with "--- /dev/null" (FromFilePrefix +:+ DevNull) = true /\
  Parse_text (text_of_lines
      ["--- /dev/null"; "+++ new.txt"; "@@ -0,0 +1,2 @@"; "+a"; "+b"])
    = Some (Ok [{| GetPath := "new.txt"; GetSelectedLines := [1; 2] |}]).
Proof. split; vm_compute; reflexivity. Qed.

Lemma filter_length_lt {A : Type} (p : A -> bool) (l : list A) (x : A) :
  In x l -> p x = false -> (length (List.filter p l) < length l)%nat.
Proof.
  induction l as [|y l IH]; intros Hin Hx; [contradiction|].
  simpl. pose proof (List.filter_length_le p l) as Hle.
  destruct Hin as [->|Hin].
  - rewrite Hx. lia.
  - specialize (IH Hin Hx). destruct (p y); simpl; lia.
Qed.

(** C1, amended.  The filter removes a file only when its destination
    path is the null-device path itself.  Whenever the loop of [Parse] ends
    normally, the file registered after a from-file line that references
    the null device, its own path being another one (the new-file case), is
    part of the result of [Parse]: with all its selected lines, and with
    its path as registered or with the git destination prefix taken
    off.  Only its from-file line is dropped: the lines that the detection
    of the convention looks at are the recorded ones that do not reference
    the null device, this line not among them, and whether the path of the
    file is stripped is decided by the convention on those lines and on the
    files that are left. *)
Theorem C1_new_file_is_kept (istr : wistream) (st : ParseState) (i : nat)
    (fromLine : string) (file : File) :
  Parse_scan istr = Some (Ok st) ->
  sourceFileLines st !! i = Some fromLine ->
  files st !! i = Some file ->
  starts_with fromLine (FromFilePrefix +:+ DevNull) = true ->
  GetPath file <> DevNull ->
  exists out file',
    Parse istr = Some (Ok out) /\ In file' out /\
    GetSelectedLines file' = GetSelectedLines file /\
    (GetPath file' = GetPath file \/ GetPath file = GitTargetPrefix +:+ GetPath file') /\
    let fs := fst (RemoveDevNull (files st) (sourceFileLines st)) in
    let lines := snd (RemoveDevNull (files st) (sourceFileLines st)) in
    ~ In fromLine lines /\
    (length lines < length (sourceFileLines st))%nat /\
    (forall line, In line lines <->
       In line (sourceFileLines st) /\
       starts_with line (FromFilePrefix +:+ DevNull) = false) /\
    In file fs /\
    (git_convention fs lines (foundGitHeader st) -> stripped file file') /\
    (~ git_convention fs lines (foundGitHeader st) -> file' = file).
Proof.
  intros Hscan Hline Hfile Hnull Hpath.
  pose proof (Parse_of_scan _ _ Hscan) as HP. rewrite Parse_finish_ok in HP.
  assert (Hinl : In fromLine (sourceFileLines st)).
  { apply list_elem_of_In. eapply list_elem_of_lookup_2, Hline. }
  assert (Hin : In file (fst (RemoveDevNull (files st) (sourceFileLines st)))).
  { apply filter_In. split.
    - apply list_elem_of_In. eapply list_elem_of_lookup_2, Hfile.
    - apply negb_true_iff, String.eqb_neq, Hpath. }
  assert (Hlines :
    ~ In fromLine (snd (RemoveDevNull (files st) (sourceFileLines st))) /\
    (length (snd (RemoveDevNull (files st) (sourceFileLines st)))
       < length (sourceFileLines st))%nat /\
    (forall line, In line (snd (RemoveDevNull (files st) (sourceFileLines st))) <->
       In line (sourceFileLines st) /\
       starts_with line (FromFilePrefix +:+ DevNull) = false)).
  { split; [|split].
    - intros H. apply filter_In in H as [_ H].
      apply negb_true_iff in H. congruence.
    - apply (filter_length_lt _ _ fromLine Hinl). now apply negb_false_iff.
    - intros line. split.
      + intros H. apply filter_In in H as [H1 H2]. apply negb_true_iff in H2. now split.
      + intros [H1 H2]. apply filter_In. split; [exact H1 | now apply negb_true_iff]. }
  destruct Hlines as (Hl1 & Hl2 & Hl3).
  destruct (RemoveDevNull (files st) (sourceFileLines st)) as [fs lines] eqn:ER.
  cbn [fst snd] in *.
  destruct (IsGitDetected fs lines (foundGitHeader st)) eqn:EG.
  - pose proof EG as Hc. apply IsGitDetected_iff in Hc. destruct Hc as (_ & Hfs & _).
    assert (Hs : stripped file (strip_git_prefix file)).
    { apply strip_git_prefix_stripped.
      rewrite List.Forall_forall in Hfs. now apply Hfs. }
    exists (map strip_git_prefix fs), (strip_git_prefix file).
    split; [exact HP|]. split; [now apply in_map|].
    destruct Hs as [Hp Hsel]. split; [exact Hsel|]. split; [now right|].
    repeat (split; [assumption|]). split; [intros _; now split|].
    intros Hn. exfalso. apply Hn, IsGitDetected_iff, EG.
  - exists fs, file. split; [exact HP|]. split; [exact Hin|].
    split; [reflexivity|]. split; [now left|].
    repeat (split; [assumption|]). split; [|reflexivity].
    intros Hc. apply IsGitDetected_iff in Hc. congruence.
Qed.

Lemma C1_new_file_is_kept_witness :
  exists out file',
    Parse_text (text_of_lines
        ["diff --git a/new.txt b/new.txt"; "--- /dev/null"; "+++ b/new.txt";
         "@@ -0,0 +1,2 @@"; "+a"; "+b"]) = Some (Ok out) /\
    In file' out /\
    GetSelectedLines file' = [1; 2] /\
    (GetPath file' = "b/new.txt" \/ "b/new.txt" = GitTargetPrefix +:+ GetPath file') /\
    ~ In "--- /dev/null" [] /\
    (0 < 1)%nat /\
    (forall line, In line [] <->
       In line ["--- /dev/null"] /\
       starts_with line (FromFilePrefix +:+ DevNull) = false) /\
    In {| GetPath := "b/new.txt"; GetSelectedLines := [1; 2] |}
       [{| GetPath := "b/new.txt"; GetSelectedLines := [1; 2] |}] /\
    (git_convention [{| GetPath := "b/new.txt"; GetSelectedLines := [1; 2] |}] [] true ->
       stripped {| GetPath := "b/new.txt"; GetSelectedLines := [1; 2] |} file') /\
    (~ git_convention [{| GetPath := "b/new.txt"; GetSelectedLines := [1; 2] |}] [] true ->
       file' = {| GetPath := "b/new.txt"; GetSelectedLines := [1; 2] |}).
Proof.
  apply (C1_new_file_is_kept
           (wistringstream (text_of_lines
              ["diff --git a/new.txt b/new.txt"; "--- /dev/null"; "+++ b/new.txt";
               "@@ -0,0 +1,2 @@"; "+a"; "+b"]))
           {| files := [{| GetPath := "b/new.txt"; GetSelectedLines := [1; 2] |}];
              sourceFileLines := ["--- /dev/null"];
              foundGitHeader := true |}
           0%nat "--- /dev/null"
           {| GetPath := "b/new.txt"; GetSelectedLines := [1; 2] |}).
  - vm_compute. reflexivity.
  - reflexivity.
  - reflexivity.
  - vm_compute. reflexivity.
  - discriminate.
Defined.

(* ===================================================================== *)
(** ** C4: stripping is all or nothing *)

(** C4, as stated, fails: the input has the git marker and one section, for
    a new file; the from-file line recorded for it does not begin with the
    from-file marker followed by [a/], and yet the path is stripped. *)
Lemma C4_recorded_line_counterexample :
  let text := text_of_lines
      ["diff --git a/new.txt b/new.txt"; "--- /dev/null"; "+++ b/new.txt";
       "@@ -0,0 +1 @@"; "+a"] in
  Parse_scan (wistringstream text)
    = Some (Ok {| files := [{| GetPath := "b/new.txt"; GetSelectedLines := [1] |}];
                  sourceFileLines := ["--- /dev/null"];
                  foundGitHeader := true |}) /\
  starts_with "--- /dev/null" (FromFilePrefix +:+ "a/") = false /\
  Parse_text text = Some (Ok [{| GetPath := "new.txt"; GetSelectedLines := [1] |}]).
Proof. repeat split; vm_compute; reflexivity. Qed.

(** C4, amended.  Stripping is all or nothing, decided on what the
    sentinel filter has left: with [fs] the files and [lines] the
    from-file lines that remain after [RemoveDevNull], [Parse] returns [fs]
    with the git destination prefix taken off every path when a git marker
    was seen, every path of [fs] begins with [b/] and every line of [lines]
    begins with the from-file marker followed by [a/]; when one of the
    three fails, [Parse] returns [fs] itself, no path stripped. *)
Theorem C4_all_or_nothing (istr : wistream) (st : ParseState)
    (fs : list File) (lines : list string) :
  Parse_scan istr = Some (Ok st) ->
  RemoveDevNull (files st) (sourceFileLines st) = (fs, lines) ->
  exists out,
    Parse istr = Some (Ok out) /\
    (git_convention fs lines (foundGitHeader st) -> Forall2 stripped fs out) /\
    (~ git_convention fs lines (foundGitHeader st) -> out = fs).
Proof.
  intros Hscan HR.
  pose proof (Parse_of_scan _ _ Hscan) as HP.
  rewrite Parse_finish_ok, HR in HP.
  eexists. split; [exact HP|].
  destruct (IsGitDetected fs lines (foundGitHeader st)) eqn:EG.
  - split; [|intros Hn; exfalso; apply Hn, IsGitDetected_iff, EG].
    intros (_ & Hfs & _). apply Forall2_strip, Hfs.
  - split; [|reflexivity].
    intros Hc. apply IsGitDetected_iff in Hc. congruence.
Qed.

Lemma C4_all_or_nothing_witness :
  let text := text_of_lines
      ["diff --git a/x b/x"; "--- a/x"; "+++ b/x"; "@@ -1 +1 @@"; "+y";
       "--- old/z"; "+++ new/z"; "@@ -3 +3 @@"; "+w"] in
  let fs := [{| GetPath := "b/x"; GetSelectedLines := [1] |};
             {| GetPath := "new/z"; GetSelectedLines := [3] |}] in
  exists out,
    Parse_text text = Some (Ok out) /\
    (git_convention fs ["--- a/x"; "--- old/z"] true -> Forall2 stripped fs out) /\
    (~ git_convention fs ["--- a/x"; "--- old/z"] true -> out = fs).
Proof.
  intros text fs.
  apply (C4_all_or_nothing (wistringstream text)
           {| files := fs; sourceFileLines := ["--- a/x"; "--- old/z"];
              foundGitHeader := true |} fs ["--- a/x"; "--- old/z"]).
  - vm_compute. reflexivity.
  - vm_compute. reflexivity.
Defined.

(* ===================================================================== *)
(** ** C5: the order of the two post-processing steps *)

(** C5, as stated, fails: the second section deletes a file, so that one
    registered file has the null-device path, which lacks [b/]; the path
    of the other file is stripped all the same. *)
Lemma C5_deleted_file_counterexample :
  let text := text_of_lines
      ["diff --git a/x b/x"; "--- a/x"; "+++ b/x"; "@@ -1 +1 @@"; "+y";
       "diff --git a/old b/old"; "--- a/old"; "+++ /dev/null"; "@@ -1 +0,0 @@"; "-z"] in
  Parse_scan (wistringstream text)
    = Some (Ok {| files := [{| GetPath := "b/x"; GetSelectedLines := [1] |};
                            {| GetPath := "/dev/null"; GetSelectedLines := [] |}];
                  sourceFileLines := ["--- a/x"; "--- a/old"];
                  foundGitHeader := true |}) /\
  starts_with DevNull GitTargetPrefix = false /\
  Parse_text text = Some (Ok [{| GetPath := "x"; GetSelectedLines := [1] |}]).
Proof. repeat split; vm_compute; reflexivity. Qed.

(** C5, amended.  The sentinel filter runs first and the detection of the
    convention second, over what the filter has left.  A registered file
    whose path is the null-device path, or a from-file line that references
    it, therefore does not stand in the way: when a git marker was seen,
    every registered path is the null-device path or begins with [b/], and
    every recorded from-file line references the null device or begins
    with the marker followed by [a/], [Parse] returns the files other than
    the null-device ones, every path stripped. *)
Theorem C5_filter_before_detection (istr : wistream) (st : ParseState) :
  Parse_scan istr = Some (Ok st) ->
  foundGitHeader st = true ->
  Forall (fun file => GetPath file = DevNull \/
                      starts_with (GetPath file) GitTargetPrefix = true) (files st) ->
  Forall (fun line => starts_with line (FromFilePrefix +:+ DevNull) = true \/
                      starts_with line (FromFilePrefix +:+ "a/") = true)
         (sourceFileLines st) ->
  exists out,
    Parse istr = Some (Ok out) /\
    Forall2 stripped (List.filter not_DevNull (files st)) out.
Proof.
  intros Hscan Hgit Hfs Hlines.
  pose proof (Parse_of_scan _ _ Hscan) as HP. rewrite Parse_finish_ok in HP.
  destruct (RemoveDevNull (files st) (sourceFileLines st)) as [fs lines] eqn:ER.
  injection ER as Efs Elines.
  assert (Hc : git_convention fs lines (foundGitHeader st)).
  { split; [exact Hgit|]. rewrite <- Efs, <- Elines. unfold EraseIf. split.
    - apply List.Forall_forall. intros f Hin. apply filter_In in Hin as [Hin Hf].
      rewrite List.Forall_forall in Hfs. destruct (Hfs f Hin) as [E|E]; [|exact E].
      apply negb_true_iff, String.eqb_neq in Hf. contradiction.
    - apply List.Forall_forall. intros l Hin. apply filter_In in Hin as [Hin Hl].
      rewrite List.Forall_forall in Hlines. destruct (Hlines l Hin) as [E|E]; [|exact E].
      assert (Hl' : negb (starts_with l (FromFilePrefix +:+ DevNull)) = true) by exact Hl.
      rewrite E in Hl'. discriminate. }
  pose proof Hc as (_ & Hp & _).
  apply IsGitDetected_iff in Hc. rewrite Hc in HP.
  eexists. split; [exact HP|].
  change (List.filter not_DevNull (files st)) with
    (EraseIf (files st) (fun file => String.eqb (GetPath file) DevNull)).
  rewrite Efs. apply Forall2_strip, Hp.
Qed.

Lemma C5_filter_before_detection_witness :
  exists out,
    Parse_text (text_of_lines
        ["diff --git a/x b/x"; "--- a/x"; "+++ b/x"; "@@ -1 +1 @@"; "+y";
         "diff --git a/old b/old"; "--- a/old"; "+++ /dev/null"; "@@ -1 +0,0 @@"; "-z";
         "diff --git a/n b/n"; "--- /dev/null"; "+++ b/n"; "@@ -0,0 +1 @@"; "+v"])
      = Some (Ok out) /\
    Forall2 stripped
      (List.filter not_DevNull
         [{| GetPath := "b/x"; GetSelectedLines := [1] |};
          {| GetPath := "/dev/null"; GetSelectedLines := [] |};
          {| GetPath := "b/n"; GetSelectedLines := [1] |}]) out.
Proof.
  apply (C5_filter_before_detection
           (wistringstream (text_of_lines
              ["diff --git a/x b/x"; "--- a/x"; "+++ b/x"; "@@ -1 +1 @@"; "+y";
               "diff --git a/old b/old"; "--- a/old"; "+++ /dev/null"; "@@ -1 +0,0 @@"; "-z";
               "diff --git a/n b/n"; "--- /dev/null"; "+++ b/n"; "@@ -0,0 +1 @@"; "+v"]))
           {| files := [{| GetPath := "b/x"; GetSelectedLines := [1] |};
                        {| GetPath := "/dev/null"; GetSelectedLines := [] |};
                        {| GetPath := "b/n"; GetSelectedLines := [1] |}];
              sourceFileLines := ["--- a/x"; "--- a/old"; "--- /dev/null"];
              foundGitHeader := true |}).
  - vm_compute. reflexivity.
  - reflexivity.
  - cbn [files].
    repeat (apply List.Forall_cons; [first [left; reflexivity | right; reflexivity]|]).
    apply List.Forall_nil.
  - cbn [sourceFileLines].
    repeat (apply List.Forall_cons; [first [left; reflexivity | right; reflexivity]|]).
    apply List.Forall_nil.
Defined.

(* ===================================================================== *)
(** ** C6: the from-file line and the to-file line *)

Lemma find_up_to_tab (s : string) :
  match find tab s with
  | Some k => string_take k s = up_to_tab s
  | None => s = up_to_tab s
  end.
Proof.
  induction s as [|c s IH]; simpl; [reflexivity|].
  destruct (Ascii.eqb c tab); [reflexivity|].
  destruct (find tab s) as [k|]; simpl; now rewrite <- IH.
Qed.

(** [ExtractTargetFile] computes the path of the spec and does not throw on
    a line that begins with the to-file marker. *)
Lemma ExtractTargetFile_spec (nextLine : string) :
  starts_with nextLine ToFilePrefix = true ->
  ExtractTargetFile nextLine = Ok (target_of nextLine).
Proof.
  intros H. apply starts_with_drop in H.
  unfold target_of. set (r := string_drop (String.length ToFilePrefix) nextLine) in *.
  rewrite H. unfold ExtractTargetFile, ToFilePrefix, substr. simpl.
  pose proof (find_up_to_tab r) as Hr.
  destruct (find tab r) as [k|]; simpl.
  - replace (k - 0)%nat with k by lia. now rewrite Hr.
  - now rewrite <- Hr.
Qed.

(** The loop of [Parse] only ever appends to the vector of files: paths
    registered earlier stay, in their order, in front of later ones. *)
Lemma Parse_while_encounter_order (fuel : nat) :
  forall stream line st st',
    Parse_while fuel stream line st = Some (Ok st') ->
    exists later, map GetPath (files st') = map GetPath (files st) ++ later.
Proof.
  induction fuel as [|fuel IH]; intros stream line st st'; [discriminate|].
  simpl. destruct (GetLine stream line) as [[s1 line'] [|]].
  2:{ intros [= <-]. exists []. now rewrite app_nil_r. }
  destruct (Parse_body s1 line' st) as [[[s2 st2]|]|] eqn:EB; try discriminate.
  simpl. intros Hw. destruct (IH _ _ _ _ Hw) as [later Hl]. rewrite Hl.
  apply Parse_body_vectors in EB as [[_ E]|(path & E & _)].
  - rewrite E. now exists later.
  - rewrite E, map_app. simpl. rewrite <- app_assoc. now eexists.
Qed.

(** C6, as stated, fails: the fourth line of the input begins with the
    from-file marker and the fifth with the to-file marker, but both are
    content lines of the hunk (a removed line [-- x] and an added line
    [++ y]); no file with path [y] is registered. *)
Lemma C6_lines_of_a_hunk_counterexample :
  starts_with "--- x" FromFilePrefix = true /\
  starts_with "+++ y" ToFilePrefix = true /\
  Parse_text (text_of_lines ["--- a.txt"; "+++ b.txt"; "@@ -1 +1 @@"; "--- x"; "+++ y"])
    = Some (Ok [{| GetPath := "b.txt"; GetSelectedLines := [1] |}]).
Proof. repeat split; vm_compute; reflexivity. Qed.

(** C6, amended.  For every line beginning with the from-file marker that
    the loop of [Parse] reads, that is, a line that is not consumed as a
    content line of a hunk: when the next line exists and begins with the
    to-file marker, a new file is appended after the files registered so
    far, its path being the content of the to-file line after the marker,
    truncated at the first tab if there is one, and the from-file line is
    recorded with it; when the next line exists and lacks the to-file
    marker, [ErrorExpectFromFilePrefix] is thrown; when there is no next
    line, [ErrorCannotReadLine] is thrown.  Files registered earlier keep
    their place in front of later ones until the loop ends. *)
Theorem C6_from_file_line (stream : Stream) (line : string) (st : ParseState) :
  starts_with line FromFilePrefix = true ->
  (forall stream' nextLine,
      GetLine stream EmptyString = (stream', nextLine, true) ->
      starts_with nextLine ToFilePrefix = true ->
      Parse_body stream line st =
        Some (Ok (stream',
                  {| files := files st ++ [File_new (target_of nextLine)];
                     sourceFileLines := sourceFileLines st ++ [line];
                     foundGitHeader := foundGitHeader st |}))) /\
  (forall stream' nextLine,
      GetLine stream EmptyString = (stream', nextLine, true) ->
      starts_with nextLine ToFilePrefix = false ->
      exists n text,
        Parse_body stream line st =
          Some (Throw (UnifiedDiffParserException n text ErrorExpectFromFilePrefix))) /\
  (forall stream' nextLine,
      GetLine stream EmptyString = (stream', nextLine, false) ->
      exists n text,
        Parse_body stream line st =
          Some (Throw (UnifiedDiffParserException n text ErrorCannotReadLine))) /\
  (forall fuel stream0 line0 st',
      Parse_while fuel stream0 line0 st = Some (Ok st') ->
      exists later, map GetPath (files st') = map GetPath (files st) ++ later).
Proof.
  intros Hfrom.
  assert (Hgit : starts_with line "diff --git" = false).
  { eapply (starts_with_other_head line _ _ "-"%char "d"%char); [discriminate|exact Hfrom]. }
  unfold Parse_body. rewrite Hgit, Hfrom.
  split; [|split; [|split]].
  - intros s' nextLine -> Hto. rewrite Hto, (ExtractTargetFile_spec _ Hto). reflexivity.
  - intros s' nextLine -> Hto. rewrite Hto. unfold ThrowError. eauto.
  - intros s' nextLine ->. unfold ThrowError. eauto.
  - intros fuel stream0 line0 st'. apply Parse_while_encounter_order.
Qed.

Lemma C6_from_file_line_witness :
  let stream := Stream_new (wistringstream (text_of_lines ["+++ b/src/main.cpp" +:+ String tab "2024-01-01"; "@@ -1 +1 @@"])) in
  starts_with "--- a/src/main.cpp" FromFilePrefix = true /\
  exists stream',
    Parse_body stream "--- a/src/main.cpp" ParseState_new =
      Some (Ok (stream',
                {| files := [File_new "b/src/main.cpp"];
                   sourceFileLines := ["--- a/src/main.cpp"];
                   foundGitHeader := false |})).
Proof.
  intros stream. split; [reflexivity|].
  destruct (GetLine stream EmptyString) as [[stream' nextLine] ok] eqn:EG.
  exists stream'.
  vm_compute in EG. injection EG as <- <- <-.
  exact (proj1 (C6_from_file_line stream "--- a/src/main.cpp" ParseState_new eq_refl)
           _ _ eq_refl eq_refl).
Defined.

(* ===================================================================== *)
(** ** C7: the hunk header *)

(** C7, as stated, fails: the header has the shape, but its third number
    does not fit an [int]; [std::stoi] throws [out_of_range] and no number
    is extracted. *)
Lemma C7_number_too_large_counterexample :
  hunk_shape "@@ -1 +99999999999 @@" "1" None "99999999999" None /\
  forall stream,
    ExtractHunksDifferences stream "@@ -1 +99999999999 @@" = Throw out_of_range.
Proof.
  split; [|reflexivity].
  unfold hunk_shape, is_number.
  repeat split; try discriminate; try reflexivity.
  exists " ", " ", " ", EmptyString. repeat split; reflexivity.
Qed.

(** C7, amended.  For every line beginning with [@@] that the loop of
    [Parse] has just read ([stream] is the stream as the read left it):
    before any file has been registered, [ErrorNoFilenameBeforeHunks] is
    thrown, whatever the line looks like; else, when the line has the shape
    [@@ -startFrom[,countFrom] +startTo[,countTo] @@] (white space
    optional where the form has a blank, anything after the closing
    marker) and each number fits an [int], the four numbers are extracted,
    a count that is left out being 1; and when the line has not that shape,
    [ErrorInvalidHunks] is thrown, with the number and the text of that
    header line. *)
Theorem C7_hunk_header (stream0 stream : Stream) (str line : string) (st : ParseState) :
  GetLine stream0 str = (stream, line, true) ->
  starts_with line "@@" = true ->
  (files st = [] ->
     Parse_body stream line st =
       Some (Throw (UnifiedDiffParserException (currentLine_ stream) line
                      ErrorNoFilenameBeforeHunks))) /\
  (forall m1 m2 m3 m4,
     hunk_shape line m1 m2 m3 m4 ->
     decimal 0 m1 <= Int.INT_MAX -> count_value m2 <= Int.INT_MAX ->
     decimal 0 m3 <= Int.INT_MAX -> count_value m4 <= Int.INT_MAX ->
     ExtractHunksDifferences stream line =
       Ok {| startFrom := decimal 0 m1; countFrom := count_value m2;
             startTo := decimal 0 m3; countTo := count_value m4 |}) /\
  (files st <> [] ->
   (forall m1 m2 m3 m4, ~ hunk_shape line m1 m2 m3 m4) ->
     Parse_body stream line st =
       Some (Throw (UnifiedDiffParserException (currentLine_ stream) line
                      ErrorInvalidHunks))).
Proof.
  intros Hread Hat.
  destruct (GetLine_fields _ _ _ _ _ Hread) as [_ Htext].
  assert (Hgit : starts_with line "diff --git" = false).
  { eapply (starts_with_other_head line _ _ "@"%char "d"%char); [discriminate|exact Hat]. }
  assert (Hfrom : starts_with line FromFilePrefix = false).
  { eapply (starts_with_other_head line _ _ "@"%char "-"%char); [discriminate|exact Hat]. }
  split; [|split].
  - intros Hnil. unfold Parse_body. rewrite Hgit, Hfrom, Hat, Hnil. simpl.
    unfold ThrowError. now rewrite Htext.
  - intros m1 m2 m3 m4. apply ExtractHunksDifferences_of_shape.
  - intros Hfiles Hshape. unfold Parse_body. rewrite Hgit, Hfrom, Hat.
    unfold FillUpdatedLines. destruct (files st) as [|f fs]; [contradiction|].
    unfold ExtractUpdatedLines.
    rewrite (ExtractHunksDifferences_no_shape _ _ Hshape).
    unfold ThrowError. simpl. now rewrite Htext.
Qed.

Lemma C7_hunk_header_witness :
  let stream0 := Stream_new (wistringstream (text_of_lines ["@@ -12 +14,3 @@ int main()"])) in
  exists stream,
    GetLine stream0 EmptyString = (stream, "@@ -12 +14,3 @@ int main()", true) /\
    ExtractHunksDifferences stream "@@ -12 +14,3 @@ int main()" =
      Ok {| startFrom := 12; countFrom := 1; startTo := 14; countTo := 3 |}.
Proof.
  intros stream0.
  destruct (GetLine stream0 EmptyString) as [[stream line] ok] eqn:EG.
  exists stream. vm_compute in EG. injection EG as <- <- <-.
  split; [reflexivity|].
  refine (proj1 (proj2 (C7_hunk_header stream0 _ EmptyString
                          "@@ -12 +14,3 @@ int main()" ParseState_new eq_refl eq_refl))
            "12" None "14" (Some "3") _ _ _ _ _).
  - unfold hunk_shape, is_number.
    split; [split; [discriminate | reflexivity]|].
    split; [split; [discriminate | reflexivity]|].
    split; [intros m; discriminate|].
    split; [intros m [= <-]; split; [discriminate | reflexivity]|].
    exists " ", " ", " ", " int main()". repeat split; reflexivity.
  - vm_compute. discriminate.
  - vm_compute. discriminate.
  - vm_compute. discriminate.
  - vm_compute. discriminate.
Defined.

(* ===================================================================== *)
(** ** C3: the content lines of a hunk *)

Lemma GetLine_ok_any (stream : Stream) (str str' : string) :
  snd (GetLine stream str) = snd (GetLine stream str').
Proof.
  unfold GetLine, getline.
  destruct (eofbit (istr_ stream) || failbit (istr_ stream)); [reflexivity|].
  destruct (extract_line (rdbuf (istr_ stream))) as [l [rest|]]; reflexivity.
Qed.

Lemma destination_lines_cons (l : string) (ls : list string) :
  destination_lines (l :: ls) =
    (if is_destination_line l then 1 else 0) + destination_lines ls.
Proof.
  unfold destination_lines. simpl. destruct (is_destination_line l); simpl; lia.
Qed.

Lemma destination_lines_nonneg (ls : list string) : 0 <= destination_lines ls.
Proof. unfold destination_lines. lia. Qed.

(** The loop of [ExtractUpdatedLines], started below or at [endLine]:
    either it reads lines until the counter is [endLine], the last line
    read being the one that brings it there, or the stream gives out
    first. *)
Lemma ExtractUpdatedLines_while_spec (fuel : nat) :
  forall stream lineStr currentLine endLine updatedLines,
    (unread stream < fuel)%nat ->
    Int.INT_MIN <= currentLine -> currentLine <= endLine -> endLine <= Int.INT_MAX ->
    (exists ls stream',
        reads stream ls stream' /\
        currentLine + destination_lines ls = endLine /\
        (forall ls1 ls2, ls = ls1 ++ ls2 -> ls2 <> [] ->
           currentLine + destination_lines ls1 < endLine) /\
        ExtractUpdatedLines_while fuel stream lineStr currentLine endLine updatedLines
          = Some (stream', endLine, updatedLines ++ added_lines currentLine ls))
    \/
    (exists ls stream' stream'',
        reads stream ls stream' /\
        currentLine + destination_lines ls < endLine /\
        exhausted stream' /\
        ExtractUpdatedLines_while fuel stream lineStr currentLine endLine updatedLines
          = Some (stream'', currentLine + destination_lines ls,
                  updatedLines ++ added_lines currentLine ls)).
Proof.
  induction fuel as [|fuel IH]; intros stream lineStr cur e upd Hfuel Hlo Hle Hhi; [lia|].
  simpl. destruct (cur <? e) eqn:Elt.
  2:{ apply Z.ltb_ge in Elt. assert (cur = e) by lia. subst e.
      left. exists [], stream. split; [constructor|].
      split; [unfold destination_lines; simpl; lia|].
      split; [|now rewrite app_nil_r].
      intros ls1 ls2 Happ Hne. symmetry in Happ.
      apply app_eq_nil in Happ as [_ ->]. contradiction. }
  apply Z.ltb_lt in Elt.
  destruct (GetLine stream lineStr) as [[s1 l1] [|]] eqn:EG.
  2:{ right. exists [], stream, s1. split; [constructor|].
      split; [unfold destination_lines; simpl; lia|].
      split; [|unfold destination_lines; simpl; now rewrite Z.add_0_r, app_nil_r].
      intros str. rewrite (GetLine_ok_any stream str lineStr), EG. reflexivity. }
  pose proof (GetLine_ok_shorter _ _ _ _ EG) as Hshort.
  unfold ExtractUpdatedLines_body. fold (is_destination_line l1).
  rewrite (int_incr_below cur e Hlo Elt Hhi).
  assert (Hprefix : forall c' ls0,
      (forall ls1 ls2, ls0 = ls1 ++ ls2 -> ls2 <> [] -> c' + destination_lines ls1 < e) ->
      c' = cur + (if is_destination_line l1 then 1 else 0) ->
      forall ls1 ls2, l1 :: ls0 = ls1 ++ ls2 -> ls2 <> [] ->
        cur + destination_lines ls1 < e).
  { intros c' ls0 H0 Hc' ls1 ls2 Happ Hne. destruct ls1 as [|x ls1].
    - unfold destination_lines. simpl. lia.
    - injection Happ as <- Happ. rewrite destination_lines_cons.
      specialize (H0 _ _ Happ Hne). lia. }
  destruct (is_destination_line l1) eqn:Ed.
  - destruct (IH s1 l1 (cur + 1) e
                (if starts_with l1 "+" then upd ++ [cur] else upd))
      as [(ls & s' & Hr & Hc & Hstop & ->)|(ls & s' & s'' & Hr & Hc & Hx & ->)];
      try lia.
    + left. exists (l1 :: ls), s'. split; [econstructor; eassumption|].
      rewrite destination_lines_cons, Ed. split; [lia|].
      split; [apply (Hprefix (cur + 1) ls Hstop); lia|].
      simpl. rewrite Ed. destruct (starts_with l1 "+"); simpl;
        now rewrite <- ?app_assoc.
    + right. exists (l1 :: ls), s', s''. split; [econstructor; eassumption|].
      rewrite destination_lines_cons, Ed. split; [lia|]. split; [exact Hx|].
      simpl. rewrite Ed. replace (cur + (1 + destination_lines ls))
        with (cur + 1 + destination_lines ls) by lia.
      destruct (starts_with l1 "+"); simpl; now rewrite <- ?app_assoc.
  - destruct (IH s1 l1 cur e upd)
      as [(ls & s' & Hr & Hc & Hstop & ->)|(ls & s' & s'' & Hr & Hc & Hx & ->)];
      try lia.
    + left. exists (l1 :: ls), s'. split; [econstructor; eassumption|].
      rewrite destination_lines_cons, Ed. split; [lia|].
      split; [apply (Hprefix cur ls Hstop); lia|].
      simpl. now rewrite Ed.
    + right. exists (l1 :: ls), s', s''. split; [econstructor; eassumption|].
      rewrite destination_lines_cons, Ed. split; [lia|]. split; [exact Hx|].
      simpl. now rewrite Ed.
Qed.

(** C3, as stated, fails: the first header declares three destination
    lines, one such line occurs before the next header, and [Parse] throws
    nothing: the second header and the line after it are taken as the
    second and third line of the first hunk. *)
Lemma C3_short_hunk_counterexample :
  (forall stream,
      ExtractHunksDifferences stream "@@ -10,1 +10,3 @@"
        = Ok {| startFrom := 10; countFrom := 1; startTo := 10; countTo := 3 |}) /\
  destination_lines ["+x"] = 1 /\
  Parse_text (text_of_lines
      ["--- a"; "+++ a"; "@@ -10,1 +10,3 @@"; "+x"; "@@ -20,1 +20,1 @@"; "+y"])
    = Some (Ok [{| GetPath := "a"; GetSelectedLines := [10; 12] |}]).
Proof. repeat split; vm_compute; reflexivity. Qed.

(** C3, amended.  For every hunk whose header declares the destination
    count [countTo], the sum [startTo + countTo] fitting an [int]: the
    parser reads lines until the counter of destination lines reaches
    [startTo + countTo], that is, until exactly [countTo] lines that are
    neither removed lines nor no-newline markers have been read, where every
    line read counts as content, whatever it looks like, and nothing is
    required of the line after the last one; the numbers recorded are those
    of the added lines.  If the stream is exhausted before the counter
    reaches [startTo + countTo], parsing fails with [ErrorContextHunks]. *)
Theorem C3_hunk_content (stream : Stream) (header : string) (hd : HunksDifferences) :
  ExtractHunksDifferences stream header = Ok hd ->
  startTo hd + countTo hd <= Int.INT_MAX ->
  (exists ls stream',
      reads stream ls stream' /\
      destination_lines ls = countTo hd /\
      (forall ls1 ls2, ls = ls1 ++ ls2 -> ls2 <> [] ->
         destination_lines ls1 < countTo hd) /\
      ExtractUpdatedLines stream header
        = Some (Ok (added_lines (startTo hd) ls, stream')))
  \/
  (exists ls stream' n text,
      reads stream ls stream' /\
      destination_lines ls < countTo hd /\
      exhausted stream' /\
      ExtractUpdatedLines stream header
        = Some (Throw (UnifiedDiffParserException n text ErrorContextHunks))).
Proof.
  intros Hhd Hsum.
  destruct (ExtractHunksDifferences_range _ _ _ Hhd) as (_ & _ & Hs & Hc).
  unfold ExtractUpdatedLines. rewrite Hhd. cbv zeta.
  rewrite int_add_fits by lia.
  destruct (ExtractUpdatedLines_while_spec (fuel_of stream) stream EmptyString
              (startTo hd) (startTo hd + countTo hd) [])
    as [(ls & s' & Hr & Hcount & Hstop & ->)|(ls & s' & s'' & Hr & Hcount & Hx & ->)];
    try (unfold fuel_of; lia); try int_lia.
  - left. exists ls, s'. split; [exact Hr|]. split; [lia|].
    split; [intros ls1 ls2 E Hne; specialize (Hstop _ _ E Hne); lia|].
    simpl. now rewrite Z.eqb_refl.
  - right. exists ls, s', (currentLine_ s''), (lastLineRead_ s'').
    split; [exact Hr|]. split; [lia|]. split; [exact Hx|].
    simpl. destruct (Z.eqb_spec (startTo hd + destination_lines ls)
                       (startTo hd + countTo hd)) as [E|_]; [lia | reflexivity].
Qed.

Lemma C3_hunk_content_witness :
  let stream := Stream_new (wistringstream (text_of_lines [" a"; "-b"; "+c"; "+d"])) in
  let header := "@@ -10,2 +10,2 @@" in
  (exists ls stream',
      reads stream ls stream' /\
      destination_lines ls = 2 /\
      (forall ls1 ls2, ls = ls1 ++ ls2 -> ls2 <> [] -> destination_lines ls1 < 2) /\
      ExtractUpdatedLines stream header = Some (Ok (added_lines 10 ls, stream')))
  \/
  (exists ls stream' n text,
      reads stream ls stream' /\
      destination_lines ls < 2 /\
      exhausted stream' /\
      ExtractUpdatedLines stream header
        = Some (Throw (UnifiedDiffParserException n text ErrorContextHunks))).
Proof.
  intros stream header.
  apply (C3_hunk_content stream header
           {| startFrom := 10; countFrom := 2; startTo := 10; countTo := 2 |}).
  - reflexivity.
  - vm_compute. discriminate.
Defined.

(* ===================================================================== *)
(** ** C9: export to a path *)

Section ExporterFacts.

Import Exporter.

Implicit Types (d : gmap (list string) Node) (p q done todo : list string).

Lemma create_directories_from_keeps todo : forall done d d1,
  create_directories_from done todo d = Some d1 ->
  forall q n, d !! q = Some n -> d1 !! q = Some n.
Proof.
  induction todo as [|c todo IH]; intros done d d1 H q n Hq; simpl in H.
  - now injection H as <-.
  - destruct (d !! (done ++ [c])) as [[|content]|] eqn:E; [|discriminate|].
    + eapply IH; eassumption.
    + eapply IH; [eassumption|].
      rewrite lookup_insert_ne; [exact Hq|]. intros <-. congruence.
Qed.

Lemma create_directories_from_changes todo : forall done d d1,
  create_directories_from done todo d = Some d1 ->
  forall q, d1 !! q = d !! q \/
            exists k, (0 < k <= length todo)%nat /\ q = done ++ take k todo.
Proof.
  induction todo as [|c todo IH]; intros done d d1 H q; simpl in H.
  - injection H as <-. now left.
  - assert (Hstep : forall k, (0 < k <= length todo)%nat ->
              (done ++ [c]) ++ take k todo = done ++ take (S k) (c :: todo)).
    { intros k _. now rewrite <- app_assoc. }
    destruct (d !! (done ++ [c])) as [[|content]|] eqn:E; [|discriminate|].
    + destruct (IH _ _ _ H q) as [Hq|(k & Hk & ->)]; [now left|].
      right. exists (S k). split; [simpl; lia | now apply Hstep].
    + destruct (IH _ _ _ H q) as [Hq|(k & Hk & ->)].
      * destruct (decide (q = done ++ [c])) as [->|Hne].
        -- right. exists 1%nat. split; [simpl; lia | reflexivity].
        -- left. now rewrite Hq, lookup_insert_ne.
      * right. exists (S k). split; [simpl; lia | now apply Hstep].
Qed.

Lemma create_directories_from_ok todo : forall done d,
  (forall k content, (0 < k <= length todo)%nat ->
     d !! (done ++ take k todo) <> Some (RegularFile content)) ->
  exists d1, create_directories_from done todo d = Some d1 /\
    forall k, (0 < k <= length todo)%nat -> d1 !! (done ++ take k todo) = Some Directory.
Proof.
  induction todo as [|c todo IH]; intros done d Hfree; simpl.
  - exists d. split; [reflexivity|]. simpl. lia.
  - assert (Hstep : forall k, (done ++ [c]) ++ take k todo = done ++ take (S k) (c :: todo)).
    { intros k. now rewrite <- app_assoc. }
    assert (Hlater : forall d', (forall k, (0 < k <= length todo)%nat ->
                d' !! ((done ++ [c]) ++ take k todo) = d !! ((done ++ [c]) ++ take k todo)) ->
              d' !! (done ++ [c]) = Some Directory ->
              exists d1, create_directories_from (done ++ [c]) todo d' = Some d1 /\
                forall k, (0 < k <= S (length todo))%nat ->
                  d1 !! (done ++ take k (c :: todo)) = Some Directory).
    { intros d' Hsame Hdir.
      destruct (IH (done ++ [c]) d') as (d1 & Hd1 & Hall).
      { intros k content Hk. rewrite Hsame by lia. rewrite Hstep.
        apply Hfree. simpl. lia. }
      exists d1. split; [exact Hd1|]. intros [|[|k]] Hk; [lia| |].
      - simpl. rewrite take_0.
        eapply create_directories_from_keeps; [exact Hd1 | exact Hdir].
      - rewrite <- Hstep. apply Hall. lia. }
    destruct (d !! (done ++ [c])) as [[|content]|] eqn:E.
    + apply Hlater; [reflexivity | exact E].
    + exfalso. apply (Hfree 1%nat content); [simpl; lia|]. simpl. now rewrite take_0.
    + apply Hlater; [|apply lookup_insert_eq].
      intros k Hk. apply lookup_insert_ne. intros Heq.
      apply (f_equal length) in Heq. rewrite !length_app, length_take in Heq.
      simpl in Heq. lia.
Qed.

End ExporterFacts.

Section ExportToPath.

Import Exporter.

Variable document : CoverageData -> string.

Implicit Types (d : gmap (list string) Node) (p : list string) (x : string).

Lemma node_at_snoc d p x : node_at d (p ++ [x]) = d !! (p ++ [x]).
Proof. destruct p; reflexivity. Qed.

Lemma has_trailing_separator_snoc p x :
  has_trailing_separator (p ++ [x]) = String.eqb x EmptyString.
Proof. unfold has_trailing_separator. now rewrite last_snoc. Qed.

Lemma parent_path_snoc p x : parent_path (p ++ [x]) = p.
Proof. apply removelast_last. Qed.

Lemma node_at_all_directories d p :
  (forall k, (0 < k <= length p)%nat -> d !! take k p = Some Directory) ->
  node_at d p = Some Directory.
Proof.
  intros H. destruct p as [|c p]; [reflexivity|].
  unfold node_at. rewrite <- (take_ge (c :: p) (length (c :: p))) at 1 by lia.
  apply H. simpl. lia.
Qed.

Lemma snoc_not_prefix p x (k : nat) : p ++ [x] <> take k p.
Proof.
  intros H. apply (f_equal length) in H.
  rewrite length_app, length_take in H. simpl in H. lia.
Qed.

(** Export to a path whose parents can be made and that does not name a
    directory: the parents are directories afterwards and the file holds
    the document. *)
Lemma Export_writes (env : Env) (parent : list string) (name : string) :
  name <> EmptyString ->
  node_at (disk env) (parent ++ [name]) <> Some Directory ->
  (forall k content, (0 < k <= length parent)%nat ->
     disk env !! take k parent <> Some (RegularFile content)) ->
  exists d',
    Export document (parent ++ [name]) env = ({| tree := tree env; disk := d' |}, Exported) /\
    d' !! (parent ++ [name]) = Some (RegularFile (document (tree env))) /\
    forall k, (0 < k <= length parent)%nat -> d' !! take k parent = Some Directory.
Proof.
  intros Hname Hnode Hfree.
  destruct (create_directories_from_ok parent [] (disk env)) as (d1 & Hd1 & Hdirs);
    [exact Hfree|].
  unfold Export. rewrite parent_path_snoc. unfold create_directories. rewrite Hd1.
  cbn [default from_option]. unfold id, open_for_writing.
  rewrite has_trailing_separator_snoc, parent_path_snoc.
  apply String.eqb_neq in Hname. rewrite Hname.
  rewrite (node_at_all_directories d1 parent Hdirs).
  rewrite node_at_snoc in *.
  assert (Hsame : d1 !! (parent ++ [name]) = disk env !! (parent ++ [name])).
  { destruct (create_directories_from_changes _ _ _ _ Hd1 (parent ++ [name]))
      as [E|(k & _ & E)]; [exact E|].
    exfalso. exact (snoc_not_prefix _ _ _ E). }
  assert (Hfinal : forall d2,
    exists d', ({| tree := tree env;
                  disk := <[parent ++ [name] := RegularFile (document (tree env))]>
                            (<[parent ++ [name] := RegularFile EmptyString]> d2) |}, Exported)
               = ({| tree := tree env; disk := d' |}, Exported) /\
      d' !! (parent ++ [name]) = Some (RegularFile (document (tree env))) /\
      forall k, (0 < k <= length parent)%nat ->
        d2 !! take k parent = Some Directory -> d' !! take k parent = Some Directory).
  { intros d2. eexists. split; [reflexivity|]. split; [apply lookup_insert_eq|].
    intros k Hk Hdir.
    rewrite !lookup_insert_ne by apply snoc_not_prefix. exact Hdir. }
  destruct (Hfinal d1) as (d' & E & Hfile & Hkeep).
  exists d'. split; [|split; [exact Hfile|]].
  - rewrite <- E, Hsame.
    destruct (disk env !! (parent ++ [name])) as [[|content]|];
      [contradiction | reflexivity | reflexivity].
  - intros k Hk. apply Hkeep; [exact Hk|]. apply Hdirs, Hk.
Qed.

(** Export to a path that names a directory fails with the error that
    names the path. *)
Lemma Export_refuses_directory (env : Env) (parent : list string) (name : string) :
  node_at (disk env) (parent ++ [name]) = Some Directory \/ name = EmptyString ->
  exists d',
    Export document (parent ++ [name]) env =
      ({| tree := tree env; disk := d' |}, InvalidOutputFileException (parent ++ [name])).
Proof.
  intros H. unfold Export.
  set (d1 := default (disk env) (create_directories (disk env) (parent_path (parent ++ [name])))).
  exists d1. replace (open_for_writing d1 (parent ++ [name])) with (@None (gmap (list string) Node));
    [reflexivity|].
  unfold open_for_writing. rewrite has_trailing_separator_snoc.
  destruct (String.eqb_spec name EmptyString) as [->|Hne]; [reflexivity|].
  destruct H as [H|H]; [|contradiction].
  rewrite node_at_snoc in *.
  assert (Hd1 : d1 !! (parent ++ [name]) = Some Directory).
  { unfold d1. destruct (create_directories _ _) as [d2|] eqn:E; [|exact H].
    eapply create_directories_from_keeps; [exact E | exact H]. }
  now rewrite Hd1.
Qed.

Lemma create_directories_from_directories todo : forall done d d1,
  create_directories_from done todo d = Some d1 ->
  forall k, (0 < k <= length todo)%nat -> d1 !! (done ++ take k todo) = Some Directory.
Proof.
  induction todo as [|c todo IH]; intros done d d1 H k Hk; simpl in Hk; [lia|].
  simpl in H.
  assert (Hstep : forall j, (done ++ [c]) ++ take j todo = done ++ take (S j) (c :: todo)).
  { intros j. now rewrite <- app_assoc. }
  assert (Hdone : forall d', d' !! (done ++ [c]) = Some Directory ->
            create_directories_from (done ++ [c]) todo d' = Some d1 ->
            d1 !! (done ++ take k (c :: todo)) = Some Directory).
  { intros d' Hdir Hc. destruct k as [|[|k]]; [lia| |].
    - simpl. rewrite take_0. eapply create_directories_from_keeps; eassumption.
    - rewrite <- Hstep. eapply IH; [exact Hc | lia]. }
  destruct (d !! (done ++ [c])) as [[|content]|] eqn:E; [|discriminate|].
  - eapply Hdone; eassumption.
  - eapply Hdone; [|exact H]. apply lookup_insert_eq.
Qed.

Lemma node_at_nonempty d p : p <> [] -> node_at d p = d !! p.
Proof. destruct p; [contradiction | reflexivity]. Qed.

(** In a well-formed file system nothing lies below a regular file. *)
Lemma nothing_below_regular_file d p (content : string) :
  well_formed d -> p <> [] -> d !! p = Some (RegularFile content) ->
  forall rest, rest <> [] -> d !! (p ++ rest) = None.
Proof.
  intros Hwf Hp Hfile rest. induction rest as [|y rest IH] using rev_ind; [contradiction|].
  intros _. destruct (d !! (p ++ rest ++ [y])) as [n|] eqn:E; [|reflexivity].
  exfalso. apply Hwf in E. rewrite app_assoc in E.
  unfold parent_path in E. rewrite removelast_last in E.
  destruct rest as [|z rest].
  - rewrite app_nil_r, (node_at_nonempty _ _ Hp), Hfile in E. discriminate E.
  - rewrite node_at_nonempty in E by (destruct p; discriminate).
    rewrite IH in E by discriminate. discriminate E.
Qed.

(** Export below a regular file fails with the error that names the path,
    and creates nothing. *)
Lemma Export_refuses_below_file (env : Env) (parent : list string) (name : string) :
  well_formed (disk env) ->
  (exists k content, (0 < k <= length parent)%nat /\
     disk env !! take k parent = Some (RegularFile content)) ->
  Export document (parent ++ [name]) env =
    ({| tree := tree env; disk := disk env |},
     InvalidOutputFileException (parent ++ [name])).
Proof.
  intros Hwf (k & content & Hk & Hfile).
  assert (Hpk : take k parent <> []).
  { intros E. apply (f_equal length) in E. rewrite length_take in E. simpl in E. lia. }
  unfold Export. rewrite parent_path_snoc. unfold create_directories.
  destruct (create_directories_from [] parent (disk env)) as [d1|] eqn:EC.
  { exfalso.
    pose proof (create_directories_from_directories _ _ _ _ EC k Hk) as Hdir.
    pose proof (create_directories_from_keeps _ _ _ _ EC _ _ Hfile) as Hkeep.
    simpl in Hdir. congruence. }
  cbn [default from_option]. unfold id.
  replace (open_for_writing (disk env) (parent ++ [name]))
    with (@None (gmap (list string) Node)); [reflexivity|].
  unfold open_for_writing. rewrite has_trailing_separator_snoc, parent_path_snoc.
  destruct (String.eqb name EmptyString); [reflexivity|].
  assert (Htarget : node_at (disk env) (parent ++ [name]) = None).
  { rewrite node_at_snoc. rewrite <- (take_drop k parent), <- app_assoc.
    apply (nothing_below_regular_file _ _ content Hwf Hpk Hfile).
    destruct (drop k parent); discriminate. }
  rewrite Htarget.
  assert (Hparent : node_at (disk env) parent <> Some Directory).
  { rewrite node_at_nonempty by (intros ->; simpl in Hk; lia).
    destruct (decide (k = length parent)) as [->|Hne].
    - rewrite take_ge in Hfile by lia. rewrite Hfile. discriminate.
    - rewrite <- (take_drop k parent).
      rewrite (nothing_below_regular_file _ _ content Hwf Hpk Hfile); [discriminate|].
      intros E. apply (f_equal length) in E. rewrite length_drop in E. simpl in E. lia. }
  destruct (node_at (disk env) parent) as [[|c]|]; [contradiction | reflexivity | reflexivity].
Qed.

End ExportToPath.

(** C9.  The path form of [Export], for a path [parent/name].  When no
    part of [parent] is a regular file and the path names neither an
    existing directory nor, by a trailing separator, a directory, [Export]
    succeeds: every directory of [parent] exists afterwards, the missing
    ones having been created, and the file at the path holds the document;
    in particular a regular file that was there is overwritten.  When the
    path names an existing directory, or ends with a separator, [Export]
    fails with [InvalidOutputFileException] naming the path.  [Export]
    either succeeds or fails with that error, and the coverage tree in
    memory is the same afterwards.  When the file cannot be opened for
    another reason, a part of [parent] being a regular file of a
    well-formed file system, [Export] fails with the same error and leaves
    the file system as it was. *)
Theorem C9_export_to_path (document : Exporter.CoverageData -> string)
    (env : Exporter.Env) (parent : list string) (name : string) :
  let output := parent ++ [name] in
  (name <> EmptyString ->
   Exporter.node_at (Exporter.disk env) output <> Some Exporter.Directory ->
   (forall k content, (0 < k <= length parent)%nat ->
      Exporter.disk env !! take k parent <> Some (Exporter.RegularFile content)) ->
   exists d',
     Exporter.Export document output env =
       ({| Exporter.tree := Exporter.tree env; Exporter.disk := d' |}, Exporter.Exported) /\
     d' !! output = Some (Exporter.RegularFile (document (Exporter.tree env))) /\
     forall k, (0 < k <= length parent)%nat ->
       d' !! take k parent = Some Exporter.Directory) /\
  (forall old,
     name <> EmptyString ->
     Exporter.disk env !! output = Some (Exporter.RegularFile old) ->
     (forall k, (0 < k <= length parent)%nat ->
        Exporter.disk env !! take k parent = Some Exporter.Directory) ->
     exists d',
       Exporter.Export document output env =
         ({| Exporter.tree := Exporter.tree env; Exporter.disk := d' |}, Exporter.Exported) /\
       d' !! output = Some (Exporter.RegularFile (document (Exporter.tree env)))) /\
  (Exporter.node_at (Exporter.disk env) output = Some Exporter.Directory \/
   name = EmptyString ->
   exists d',
     Exporter.Export document output env =
       ({| Exporter.tree := Exporter.tree env; Exporter.disk := d' |},
        Exporter.InvalidOutputFileException output)) /\
  (Exporter.tree (fst (Exporter.Export document output env)) = Exporter.tree env /\
   (snd (Exporter.Export document output env) = Exporter.Exported \/
    snd (Exporter.Export document output env) = Exporter.InvalidOutputFileException output)) /\
  (Exporter.well_formed (Exporter.disk env) ->
   (exists k content, (0 < k <= length parent)%nat /\
      Exporter.disk env !! take k parent = Some (Exporter.RegularFile content)) ->
   Exporter.Export document output env =
     ({| Exporter.tree := Exporter.tree env; Exporter.disk := Exporter.disk env |},
      Exporter.InvalidOutputFileException output)).
Proof.
  intros output. split; [|split; [|split; [|split; [|apply Export_refuses_below_file]]]].
  - apply Export_writes.
  - intros old Hname Hold Hdirs.
    destruct (Export_writes document env parent name Hname) as (d' & E & Hfile & _).
    + rewrite node_at_snoc. fold output. rewrite Hold. discriminate.
    + intros k content Hk. rewrite (Hdirs k Hk). discriminate.
    + exists d'. split; assumption.
  - apply Export_refuses_directory.
  - unfold Exporter.Export.
    destruct (Exporter.open_for_writing _ output); simpl; auto.
Qed.

Lemma well_formed_tmp_with_file :
  Exporter.well_formed
    {[ ["tmp"] := Exporter.Directory; ["tmp"; "f"] := Exporter.RegularFile "old" ]}.
Proof.
  intros p n H.
  apply lookup_insert_Some in H as [[<- _]|[_ H]]; [reflexivity|].
  apply lookup_singleton_Some in H as [<- _]. reflexivity.
Qed.

Lemma C9_export_to_path_witness :
  let document := fun _ : Exporter.CoverageData => "<coverage/>" in
  let data := {| Exporter.data_name := EmptyString; Exporter.data_exitCode := 0;
                 Exporter.data_modules := [] |} in
  let env := {| Exporter.tree := data;
                Exporter.disk := {[ ["tmp"] := Exporter.Directory ]} |} in
  let env' := {| Exporter.tree := data;
                 Exporter.disk := {[ ["tmp"] := Exporter.Directory;
                                     ["tmp"; "f"] := Exporter.RegularFile "old" ]} |} in
  (exists d',
      Exporter.Export document (["tmp"; "SubFolder"] ++ ["output.xml"]) env =
        ({| Exporter.tree := Exporter.tree env; Exporter.disk := d' |}, Exporter.Exported) /\
      d' !! (["tmp"; "SubFolder"] ++ ["output.xml"]) = Some (Exporter.RegularFile "<coverage/>") /\
      forall k, (0 < k <= 2)%nat ->
        d' !! take k ["tmp"; "SubFolder"] = Some Exporter.Directory) /\
  (exists d',
      Exporter.Export document ([] ++ ["tmp"]) env =
        ({| Exporter.tree := Exporter.tree env; Exporter.disk := d' |},
         Exporter.InvalidOutputFileException ([] ++ ["tmp"]))) /\
  Exporter.Export document (["tmp"; "f"] ++ ["output.xml"]) env' =
    ({| Exporter.tree := Exporter.tree env'; Exporter.disk := Exporter.disk env' |},
     Exporter.InvalidOutputFileException (["tmp"; "f"] ++ ["output.xml"])).
Proof.
  intros document data env env'. split; [|split].
  - apply (proj1 (C9_export_to_path document env ["tmp"; "SubFolder"] "output.xml")).
    + discriminate.
    + vm_compute. discriminate.
    + intros [|[|[|k]]] content Hk; simpl in Hk; try lia; vm_compute; discriminate.
  - apply (proj1 (proj2 (proj2 (C9_export_to_path document env [] "tmp")))).
    left. vm_compute. reflexivity.
  - apply (proj2 (proj2 (proj2 (proj2
             (C9_export_to_path document env' ["tmp"; "f"] "output.xml"))))).
    + exact well_formed_tmp_with_file.
    + exists 2%nat, "old". split; [simpl; lia | vm_compute; reflexivity].
Defined.


(* ===================================================================== *)
(** * Further properties of the parser *)

(** ** Termination *)

Lemma Parse_body_not_longer (stream stream' : Stream) (line : string) (st st' : ParseState) :
  Parse_body stream line st = Some (Ok (stream', st')) ->
  (unread stream' <= unread stream)%nat.
Proof.
  intros H. destruct (Parse_body_total stream line st) as (r & Hr & Hle).
  rewrite H in Hr. injection Hr as <-. eapply Hle. reflexivity.
Qed.

Lemma Parse_while_fuel (fuel : nat) :
  forall fuel' stream line st,
    (unread stream < fuel)%nat -> (unread stream < fuel')%nat ->
    Parse_while fuel stream line st = Parse_while fuel' stream line st.
Proof.
  induction fuel as [|fuel IH]; intros [|fuel'] stream line st H H'; try lia.
  simpl. destruct (GetLine stream line) as [[s1 l1] [|]] eqn:EG; [|reflexivity].
  pose proof (GetLine_ok_shorter _ _ _ _ EG) as Hs.
  destruct (Parse_body s1 l1 st) as [[[s2 st2]|e]|] eqn:EB; try reflexivity.
  simpl. pose proof (Parse_body_not_longer _ _ _ _ _ EB). apply IH; lia.
Qed.

(** X1.  [Parse] terminates on every stream: the loop of [Parse] and the
    loop of [ExtractUpdatedLines] inside it make at most one turn for each
    character not yet read, and one more.  Hence [Parse] returns or throws
    whatever the stream, and the outcome of the reading loop is the same
    for every amount of fuel above the number of unread characters. *)
Theorem X1_Parse_terminates (istr : wistream) (fuel : nat) :
  (String.length (rdbuf istr) < fuel)%nat ->
  (exists r, Parse istr = Some r) /\
  Parse_while fuel (Stream_new istr) EmptyString ParseState_new = Parse_scan istr.
Proof.
  intros Hfuel. split; [apply Parse_total|].
  unfold Parse_scan. apply Parse_while_fuel; unfold fuel_of; simpl; lia.
Qed.

Lemma X1_Parse_terminates_witness :
  let istr := wistringstream (text_of_lines ["--- a"; "+++ b"; "@@ -1 +1 @@"; "+x"]) in
  (exists r, Parse istr = Some r) /\
  Parse_while 1000 (Stream_new istr) EmptyString ParseState_new = Parse_scan istr.
Proof.
  intros istr. apply (X1_Parse_terminates istr 1000). vm_compute. lia.
Defined.

(* ===================================================================== *)
(** ** The stream *)

Lemma extract_line_parts (buf l : string) (r : option string) :
  extract_line buf = (l, r) ->
  is_line l = true /\
  buf = l +:+ match r with Some rest => nl +:+ rest | None => EmptyString end.
Proof.
  revert l r. induction buf as [|c buf IH]; intros l r H; simpl in H.
  - injection H as <- <-. split; reflexivity.
  - destruct (Ascii.eqb c newline) eqn:Ec.
    + injection H as <- <-. apply Ascii.eqb_eq in Ec as ->. split; reflexivity.
    + destruct (extract_line buf) as [l' r'].
      injection H as <- <-. destruct (IH _ _ eq_refl) as [Hl ->].
      split; [|reflexivity]. unfold is_line in *. simpl. now rewrite Ec, Hl.
Qed.

Lemma GetLine_ok_inv (stream stream' : Stream) (str line : string) :
  GetLine stream str = (stream', line, true) ->
  exists r, extract_line (rdbuf (istr_ stream)) = (line, r) /\
    rdbuf (istr_ stream') = match r with Some rest => rest | None => EmptyString end /\
    (r = None -> line <> EmptyString).
Proof.
  unfold GetLine, getline.
  destruct (eofbit (istr_ stream) || failbit (istr_ stream)); [intros H; discriminate H|].
  destruct (extract_line (rdbuf (istr_ stream))) as [l [rest|]].
  - intros [= <- <-]. exists (Some rest). repeat split. discriminate.
  - destruct l as [|c l]; intros H; [discriminate H|].
    injection H as <- <-. exists None. repeat split. discriminate.
Qed.

(** X2.  A successful [GetLine] loses no character: the text that was
    unread is the line returned, then a line break and what is left
    unread, or it is the line alone, non-empty, when the text ends without
    a line break.  The line returned holds no line break, the counter has
    advanced by one and the text kept for diagnostics is that line. *)
Theorem X2_GetLine_splits_the_text (stream stream' : Stream) (str line : string) :
  GetLine stream str = (stream', line, true) ->
  is_line line = true /\
  (rdbuf (istr_ stream) = line +:+ nl +:+ rdbuf (istr_ stream') \/
   (rdbuf (istr_ stream) = line /\ line <> EmptyString /\
    rdbuf (istr_ stream') = EmptyString)) /\
  currentLine_ stream' = Int.incr (currentLine_ stream) /\
  lastLineRead_ stream' = line.
Proof.
  intros H. pose proof (GetLine_fields _ _ _ _ _ H) as [Hc Ht].
  apply GetLine_ok_inv in H as (r & E & Hrest & Hne).
  apply extract_line_parts in E as [Hl E].
  split; [exact Hl|]. split; [|split; assumption].
  destruct r as [rest|].
  - left. now rewrite Hrest.
  - right. rewrite append_nil_r in E. auto.
Qed.

Lemma X2_GetLine_splits_the_text_witness :
  let stream := Stream_new (wistringstream (text_of_lines ["--- a"; "+++ b"])) in
  let stream' := {| istr_ := wistringstream (text_of_lines ["+++ b"]);
                    currentLine_ := 1; lastLineRead_ := "--- a" |} in
  is_line "--- a" = true /\
  (rdbuf (istr_ stream) = "--- a" +:+ nl +:+ rdbuf (istr_ stream') \/
   (rdbuf (istr_ stream) = "--- a" /\ "--- a" <> EmptyString /\
    rdbuf (istr_ stream') = EmptyString)) /\
  currentLine_ stream' = Int.incr (currentLine_ stream) /\
  lastLineRead_ stream' = "--- a".
Proof.
  intros stream stream'.
  apply (X2_GetLine_splits_the_text stream stream' "old" "--- a"). reflexivity.
Defined.

(** X3.  A failed [GetLine] is final: the stream has its fail bit set, and
    every later call fails too, leaves the line variable as it is, and
    still advances the counter by one. *)
Theorem X3_GetLine_failure_is_final (stream stream' : Stream) (str line str' : string) :
  GetLine stream str = (stream', line, false) ->
  failbit (istr_ stream') = true /\
  GetLine stream' str' =
    ({| istr_ := istr_ stream';
        currentLine_ := Int.incr (currentLine_ stream');
        lastLineRead_ := str' |}, str', false).
Proof.
  intros H.
  assert (Hf : failbit (istr_ stream') = true).
  { unfold GetLine in H. destruct (getline (istr_ stream) str) as [i l].
    injection H as <- _ Hn. simpl. now apply negb_false_iff in Hn. }
  split; [exact Hf|].
  unfold GetLine, getline. rewrite Hf, orb_true_r. simpl.
  destruct (istr_ stream') as [b e f]. simpl in *. now subst f.
Qed.

Lemma X3_GetLine_failure_is_final_witness :
  let stream := Stream_new (wistringstream EmptyString) in
  let stream' := {| istr_ := at_end; currentLine_ := 1; lastLineRead_ := EmptyString |} in
  failbit (istr_ stream') = true /\
  GetLine stream' "kept" =
    ({| istr_ := istr_ stream'; currentLine_ := Int.incr (currentLine_ stream');
        lastLineRead_ := "kept" |}, "kept", false).
Proof.
  intros stream stream'.
  apply (X3_GetLine_failure_is_final stream stream' "x" EmptyString "kept"). reflexivity.
Defined.

Lemma GetLine_ok_any_buffer (stream stream' : Stream) (str str' line : string) :
  GetLine stream str = (stream', line, true) -> GetLine stream str' = (stream', line, true).
Proof.
  unfold GetLine, getline.
  destruct (eofbit (istr_ stream) || failbit (istr_ stream)); [intros H; discriminate H|].
  destruct (extract_line (rdbuf (istr_ stream))) as [l [rest|]]; auto.
Qed.

Lemma extract_line_app (l rest : string) :
  is_line l = true -> extract_line (l +:+ nl +:+ rest) = (l, Some rest).
Proof.
  unfold is_line. induction l as [|c l IH]; simpl; intros H; [reflexivity|].
  apply andb_true_iff in H as [Hc Hl]. apply negb_true_iff in Hc.
  specialize (IH Hl). simpl in IH. now rewrite Hc, IH.
Qed.

Lemma GetLine_stream_at (n : Z) (text str l : string) (ls : list string) :
  is_line l = true ->
  GetLine (stream_at n text (l :: ls)) str = (stream_at (Int.incr n) l ls, l, true).
Proof.
  intros Hl. unfold GetLine, getline, stream_at, wistringstream.
  cbn [istr_ rdbuf eofbit failbit orb currentLine_].
  change (text_of_lines (l :: ls)) with (l +:+ nl +:+ text_of_lines ls).
  now rewrite (extract_line_app l (text_of_lines ls) Hl).
Qed.

Lemma GetLine_stream_at_end (n : Z) (text str : string) :
  GetLine (stream_at n text []) str =
    ({| istr_ := at_end; currentLine_ := Int.incr n; lastLineRead_ := EmptyString |},
     EmptyString, false).
Proof. reflexivity. Qed.

Lemma reads_stream_at (ls : list string) :
  Forall (fun l => is_line l = true) ls ->
  forall n text, exists n' text', reads (stream_at n text ls) ls (stream_at n' text' []).
Proof.
  induction 1 as [|l ls Hl _ IH]; intros n text.
  - exists n, text. constructor.
  - destruct (IH (Int.incr n) l) as (n' & text' & Hr).
    exists n', text'. econstructor; [|exact Hr].
    apply (GetLine_stream_at n text EmptyString l ls Hl).
Qed.

Lemma reads_stream_at_prefix (ls' : list string) :
  forall ls n text stream',
    Forall (fun l => is_line l = true) ls ->
    reads (stream_at n text ls) ls' stream' ->
    exists rest n' text', ls = ls' ++ rest /\ stream' = stream_at n' text' rest.
Proof.
  induction ls' as [|l' ls' IH]; intros ls n text stream' Hls Hr.
  - inversion Hr; subst. now exists ls, n, text.
  - inversion Hr as [|s0 s1 s2 str l0 ls0 HG Hr']; subst.
    destruct Hls as [|l ls Hl Hls].
    + rewrite GetLine_stream_at_end in HG. discriminate HG.
    + rewrite (GetLine_stream_at n text str l ls Hl) in HG.
      injection HG as <- <-.
      destruct (IH _ _ _ _ Hls Hr') as (rest & n' & text' & -> & ->).
      now exists rest, n', text'.
Qed.

(** X4.  Reading back a text: when [ls] are lines without a line break and
    the text is made of them, each ended by a line break, successive calls
    of [GetLine] deliver exactly [ls], in order, and then the stream is
    exhausted; nothing else can be read from it than a run of the first
    lines of [ls]. *)
Theorem X4_text_is_read_back (ls : list string) :
  Forall (fun l => is_line l = true) ls ->
  (exists stream',
      reads (Stream_new (wistringstream (text_of_lines ls))) ls stream' /\
      exhausted stream') /\
  (forall ls' stream',
      reads (Stream_new (wistringstream (text_of_lines ls))) ls' stream' ->
      exists rest, ls = ls' ++ rest).
Proof.
  intros Hls. split.
  - destruct (reads_stream_at ls Hls 0 (String "000"%char EmptyString)) as (n' & t' & Hr).
    exists (stream_at n' t' []). split; [exact Hr|].
    intros str. now rewrite GetLine_stream_at_end.
  - intros ls' stream' Hr.
    destruct (reads_stream_at_prefix ls' ls 0 (String "000"%char EmptyString) stream' Hls Hr)
      as (rest & _ & _ & E & _).
    now exists rest.
Qed.

Lemma X4_text_is_read_back_witness :
  exists stream',
    reads (Stream_new (wistringstream (text_of_lines ["--- a"; ""; "+++ b"])))
      ["--- a"; ""; "+++ b"] stream' /\
    exhausted stream'.
Proof.
  apply (X4_text_is_read_back ["--- a"; ""; "+++ b"]).
  repeat (apply List.Forall_cons; [reflexivity|]). apply List.Forall_nil.
Defined.

Lemma last_cons_default {A : Type} (l : list A) :
  forall x d d', List.last (x :: l) d = List.last (x :: l) d'.
Proof.
  induction l as [|y l IH]; intros x d d'; [reflexivity|].
  change (List.last (y :: l) d = List.last (y :: l) d'). apply IH.
Qed.

Lemma reads_fields (stream stream' : Stream) (ls : list string) :
  reads stream ls stream' ->
  Int.INT_MIN <= currentLine_ stream ->
  currentLine_ stream + Z.of_nat (length ls) <= Int.INT_MAX ->
  currentLine_ stream' = currentLine_ stream + Z.of_nat (length ls) /\
  lastLineRead_ stream' = List.last ls (lastLineRead_ stream).
Proof.
  induction 1 as [s|s s1 s' str l ls HG Hr IH]; intros Hlo Hhi.
  - simpl. split; [lia | reflexivity].
  - destruct (GetLine_fields _ _ _ _ _ HG) as [Hc Ht].
    assert (Hi : Int.incr (currentLine_ s) = currentLine_ s + 1).
    { apply (int_incr_below _ (currentLine_ s + 1)); [exact Hlo | lia|].
      simpl length in Hhi. lia. }
    rewrite Hi in Hc.
    destruct IH as [IH1 IH2]; [lia | simpl length in Hhi; lia|].
    split; [rewrite IH1, Hc; simpl length; lia|].
    rewrite IH2, Ht. destruct ls as [|x ls]; [reflexivity|].
    change (List.last (l :: x :: ls) (lastLineRead_ s))
      with (List.last (x :: ls) (lastLineRead_ s)).
    apply last_cons_default.
Qed.

(** X5.  The position kept for diagnostics.  After [k] successful reads
    from a fresh [Stream], [k] within the range of [int], the counter
    [currentLine_] is [k], the 1-based number of the line read last, and
    [lastLineRead_] is the text of that line. *)
Theorem X5_position_after_reads (istr : wistream) (ls : list string) (l : string)
    (stream' : Stream) :
  reads (Stream_new istr) (ls ++ [l]) stream' ->
  Z.of_nat (length (ls ++ [l])) <= Int.INT_MAX ->
  currentLine_ stream' = Z.of_nat (length (ls ++ [l])) /\ lastLineRead_ stream' = l.
Proof.
  intros Hr Hk.
  destruct (reads_fields _ _ _ Hr) as [Hc Ht]; simpl; [int_lia | lia|].
  split; [exact Hc|]. now rewrite Ht, List.last_last.
Qed.

Lemma X5_position_after_reads_witness :
  let stream' := {| istr_ := wistringstream (text_of_lines ["c"]);
                    currentLine_ := 2; lastLineRead_ := "b" |} in
  currentLine_ stream' = Z.of_nat (length (["a"] ++ ["b"])) /\ lastLineRead_ stream' = "b".
Proof.
  intros stream'.
  apply (X5_position_after_reads (wistringstream (text_of_lines ["a"; "b"; "c"])) ["a"] "b" stream').
  - apply (reads_cons _ (stream_at 1 "a" ["b"; "c"]) _ EmptyString); [reflexivity|].
    apply (reads_cons _ stream' _ EmptyString); [reflexivity | constructor].
  - vm_compute. discriminate.
Defined.

(* ===================================================================== *)
(** ** The lines recorded for a hunk *)

Lemma added_lines_bounds (ls : list string) :
  forall cur, Forall (fun x => cur <= x < cur + destination_lines ls) (added_lines cur ls).
Proof.
  induction ls as [|l ls IH]; intros cur; [constructor|].
  simpl. rewrite destination_lines_cons.
  pose proof (destination_lines_nonneg ls) as Hn.
  destruct (is_destination_line l).
  - apply List.Forall_app. split.
    + destruct (starts_with l "+"); repeat constructor; lia.
    + eapply List.Forall_impl; [|apply (IH (cur + 1))]. simpl. intros x Hx. lia.
  - eapply List.Forall_impl; [|apply (IH cur)]. simpl. intros x Hx. lia.
Qed.

Lemma added_lines_sorted (ls : list string) :
  forall cur, StronglySorted Z.lt (added_lines cur ls).
Proof.
  induction ls as [|l ls IH]; intros cur; [constructor|].
  simpl. destruct (is_destination_line l); [|apply IH].
  destruct (starts_with l "+"); simpl; [|apply IH].
  constructor; [apply IH|].
  eapply List.Forall_impl; [|apply (added_lines_bounds ls (cur + 1))].
  simpl. intros x Hx. lia.
Qed.

Lemma added_lines_length (ls : list string) :
  forall cur, Z.of_nat (length (added_lines cur ls)) <= destination_lines ls.
Proof.
  induction ls as [|l ls IH]; intros cur; [unfold destination_lines; simpl; lia|].
  simpl. rewrite destination_lines_cons.
  destruct (is_destination_line l); [|specialize (IH cur); lia].
  rewrite length_app. specialize (IH (cur + 1)).
  destruct (starts_with l "+"); simpl length; lia.
Qed.

Lemma int_add_overflow (a b : Z) :
  0 <= a <= Int.INT_MAX -> 0 <= b <= Int.INT_MAX -> Int.INT_MAX < a + b ->
  Int.add a b < 0.
Proof.
  unfold Int.add, Int.int_wrap, Int.INT_MAX, Int.INT_MIN. intros Ha Hb Hab.
  replace (a + b - -2147483648) with (a + b - 2147483648 + 1 * 4294967296) by lia.
  rewrite Z_mod_plus_full, Z.mod_small; lia.
Qed.

(** X6.  Whenever [ExtractUpdatedLines] returns, the line numbers it
    returns are in strictly ascending order, each lies in the range that
    the header declares, from [startTo] up to but not including
    [startTo + countTo], and there are at most [countTo] of them. *)
Theorem X6_updated_lines_ascending (stream stream' : Stream) (header : string)
    (updatedLines : list Z) :
  ExtractUpdatedLines stream header = Some (Ok (updatedLines, stream')) ->
  exists hd,
    ExtractHunksDifferences stream header = Ok hd /\
    StronglySorted Z.lt updatedLines /\
    Forall (fun x => startTo hd <= x < startTo hd + countTo hd) updatedLines /\
    Z.of_nat (length updatedLines) <= countTo hd.
Proof.
  unfold ExtractUpdatedLines.
  destruct (ExtractHunksDifferences stream header) as [hd|e] eqn:Hhd; [|discriminate].
  cbv zeta. intros H. exists hd. split; [reflexivity|].
  destruct (ExtractHunksDifferences_range _ _ _ Hhd) as (_ & _ & Hs & Hc).
  destruct (Z_le_gt_dec (startTo hd + countTo hd) Int.INT_MAX) as [Hfit|Hover].
  - rewrite int_add_fits in H by lia.
    destruct (ExtractUpdatedLines_while_spec (fuel_of stream) stream EmptyString
                (startTo hd) (startTo hd + countTo hd) [])
      as [(ls & s' & Hr & Hcount & _ & E)|(ls & s' & s'' & Hr & Hcount & _ & E)];
      try (unfold fuel_of; lia); try int_lia; rewrite E in H; simpl in H.
    + rewrite Z.eqb_refl in H. injection H as <- _.
      assert (Hd : destination_lines ls = countTo hd) by lia. rewrite <- Hd.
      split; [apply added_lines_sorted|].
      split; [apply added_lines_bounds | apply added_lines_length].
    + destruct (Z.eqb_spec (startTo hd + destination_lines ls) (startTo hd + countTo hd));
        [lia | discriminate H].
  - exfalso. pose proof (int_add_overflow (startTo hd) (countTo hd) Hs Hc) as Hneg.
    unfold fuel_of in H. simpl in H.
    destruct (Z.ltb_spec (startTo hd) (Int.add (startTo hd) (countTo hd))); [lia|].
    simpl in H.
    destruct (Z.eqb_spec (startTo hd) (Int.add (startTo hd) (countTo hd))); [lia|].
    discriminate H.
Qed.

Lemma X6_updated_lines_ascending_witness :
  exists hd,
    ExtractHunksDifferences (stream_at 3 "@@ -4,2 +7,3 @@" [" a"; "-b"; "+c"; "+d"])
      "@@ -4,2 +7,3 @@" = Ok hd /\
    StronglySorted Z.lt [8; 9] /\
    Forall (fun x => startTo hd <= x < startTo hd + countTo hd) [8; 9] /\
    Z.of_nat (length [8; 9]) <= countTo hd.
Proof.
  apply (X6_updated_lines_ascending
           (stream_at 3 "@@ -4,2 +7,3 @@" [" a"; "-b"; "+c"; "+d"])
           (stream_at 7 "+d" []) "@@ -4,2 +7,3 @@" [8; 9]).
  vm_compute. reflexivity.
Defined.

Lemma ExtractUpdatedLines_while_reads (stream stream' : Stream) (ls : list string) :
  reads stream ls stream' ->
  forall fuel lineStr currentLine endLine updatedLines,
    (unread stream < fuel)%nat ->
    Int.INT_MIN <= currentLine -> endLine <= Int.INT_MAX ->
    hunk_content (endLine - currentLine) ls ->
    ExtractUpdatedLines_while fuel stream lineStr currentLine endLine updatedLines
      = Some (stream', endLine, updatedLines ++ added_lines currentLine ls).
Proof.
  induction 1 as [s|s s1 s' str l ls HG Hr IH];
    intros [|fuel] lineStr cur e upd Hfuel Hlo Hhi [Hcount Hstop]; try lia.
  - unfold destination_lines in Hcount. simpl in Hcount.
    assert (cur = e) by lia. subst e. simpl.
    now rewrite Z.ltb_irrefl, app_nil_r.
  - assert (Hlt : cur < e).
    { specialize (Hstop [] (l :: ls) eq_refl). unfold destination_lines in Hstop.
      simpl in Hstop. assert (l :: ls <> []) by discriminate. intuition lia. }
    simpl. apply Z.ltb_lt in Hlt as Hlt'. rewrite Hlt'.
    rewrite (GetLine_ok_any_buffer _ _ _ lineStr _ HG).
    pose proof (GetLine_ok_shorter _ _ _ _ HG) as Hshort.
    unfold ExtractUpdatedLines_body. fold (is_destination_line l).
    rewrite (int_incr_below cur e Hlo Hlt Hhi).
    rewrite destination_lines_cons in Hcount.
    assert (Hstop' : forall c', c' = cur + (if is_destination_line l then 1 else 0) ->
              forall ls1 ls2, ls = ls1 ++ ls2 -> ls2 <> [] -> destination_lines ls1 < e - c').
    { intros c' -> ls1 ls2 E Hne.
      specialize (Hstop (l :: ls1) ls2). rewrite destination_lines_cons in Hstop.
      simpl in Hstop. rewrite E in Hstop. specialize (Hstop eq_refl Hne). lia. }
    destruct (is_destination_line l).
    + rewrite (IH fuel l (cur + 1) e (if starts_with l "+" then upd ++ [cur] else upd));
        try lia.
      * destruct (starts_with l "+"); simpl; now rewrite <- ?app_assoc.
      * split; [lia | apply Hstop'; lia].
    + rewrite (IH fuel l cur e upd); try lia; [reflexivity|].
      split; [lia | apply Hstop'; lia].
Qed.

(** X7.  The result of [ExtractUpdatedLines] from the lines that follow
    the header.  When the header declares [countTo] destination lines,
    [startTo + countTo] fitting an [int], and the lines ahead in the stream
    begin with the content [ls] of such a hunk, [ExtractUpdatedLines] reads
    exactly [ls], leaves the stream behind the last of them and returns the
    numbers of the added lines of [ls], counted from [startTo]. *)
Theorem X7_hunk_of_given_lines (stream stream' : Stream) (header : string)
    (hd : HunksDifferences) (ls : list string) :
  ExtractHunksDifferences stream header = Ok hd ->
  startTo hd + countTo hd <= Int.INT_MAX ->
  reads stream ls stream' ->
  hunk_content (countTo hd) ls ->
  ExtractUpdatedLines stream header = Some (Ok (added_lines (startTo hd) ls, stream')).
Proof.
  intros Hhd Hfit Hr Hcontent.
  destruct (ExtractHunksDifferences_range _ _ _ Hhd) as (_ & _ & Hs & Hc).
  unfold ExtractUpdatedLines. rewrite Hhd. cbv zeta.
  rewrite int_add_fits by lia.
  rewrite (ExtractUpdatedLines_while_reads _ _ _ Hr); try (unfold fuel_of; lia); try int_lia.
  - simpl. now rewrite Z.eqb_refl.
  - now replace (startTo hd + countTo hd - startTo hd) with (countTo hd) by lia.
Qed.

Lemma destination_lines_app (a b : list string) :
  destination_lines (a ++ b) = destination_lines a + destination_lines b.
Proof.
  unfold destination_lines. rewrite List.filter_app, length_app. lia.
Qed.

Lemma destination_lines_le_length (ls : list string) :
  destination_lines ls <= Z.of_nat (length ls).
Proof.
  unfold destination_lines. pose proof (List.filter_length_le is_destination_line ls). lia.
Qed.

Lemma hunk_content_nil : hunk_content 0 [].
Proof.
  split; [reflexivity|]. intros ls1 ls2 E Hne. symmetry in E.
  apply app_eq_nil in E as [_ ->]. contradiction.
Qed.

(** A run of lines of which the last is a destination line is the content
    of a hunk. *)
Lemma hunk_content_snoc (ls : list string) (l : string) :
  is_destination_line l = true ->
  hunk_content (destination_lines ls + 1) (ls ++ [l]).
Proof.
  intros Hl. split.
  - rewrite destination_lines_app, (destination_lines_cons l []), Hl. reflexivity.
  - intros ls1 ls2 E Hne.
    destruct (exists_last Hne) as (ls2' & x & ->).
    rewrite app_assoc in E. apply app_inj_tail in E as [-> _].
    rewrite destination_lines_app. pose proof (destination_lines_nonneg ls2'). lia.
Qed.

Lemma X7_hunk_of_given_lines_witness :
  let header := "@@ -4,2 +7,3 @@" in
  ExtractUpdatedLines (stream_at 3 header [" a"; "-b"; "+c"; "+d"; "--- next"]) header
    = Some (Ok (added_lines 7 [" a"; "-b"; "+c"; "+d"], stream_at 7 "+d" ["--- next"])).
Proof.
  intros header.
  apply (X7_hunk_of_given_lines
           (stream_at 3 header [" a"; "-b"; "+c"; "+d"; "--- next"])
           (stream_at 7 "+d" ["--- next"]) header
           {| startFrom := 4; countFrom := 2; startTo := 7; countTo := 3 |}
           [" a"; "-b"; "+c"; "+d"]).
  - reflexivity.
  - vm_compute. discriminate.
  - repeat (eapply (reads_cons _ _ _ EmptyString); [reflexivity|]). apply reads_nil.
  - apply (hunk_content_snoc [" a"; "-b"; "+c"] "+d"). reflexivity.
Defined.

Lemma starts_with_plus_destination (l : string) :
  starts_with l "+" = true -> is_destination_line l = true.
Proof.
  intros H. unfold is_destination_line.
  rewrite (starts_with_other_head l "" "" "+"%char "-"%char) by (discriminate || exact H).
  rewrite (starts_with_other_head l "" "" "+"%char "\"%char) by (discriminate || exact H).
  reflexivity.
Qed.

Lemma added_lines_of_additions (ls : list string) :
  Forall (fun l => starts_with l "+" = true) ls ->
  forall cur,
    destination_lines ls = Z.of_nat (length ls) /\
    added_lines cur ls = map (fun i => cur + Z.of_nat i) (seq 0 (length ls)).
Proof.
  induction 1 as [|l ls Hl _ IH]; intros cur; [split; reflexivity|].
  destruct (IH (cur + 1)) as [Hd Ha].
  pose proof (starts_with_plus_destination l Hl) as Hdest.
  split.
  - rewrite destination_lines_cons, Hdest, Hd. simpl length. lia.
  - simpl. rewrite Hdest, Hl, Ha. simpl. f_equal; [f_equal; lia|].
    rewrite <- seq_shift, map_map. apply map_ext. intros i. lia.
Qed.

Lemma hunk_content_all_destination (ls : list string) :
  destination_lines ls = Z.of_nat (length ls) ->
  hunk_content (Z.of_nat (length ls)) ls.
Proof.
  intros Hd. split; [exact Hd|].
  intros ls1 ls2 -> Hne. rewrite length_app.
  pose proof (destination_lines_le_length ls1).
  destruct ls2; [contradiction | simpl length; lia].
Qed.

(** X8.  A hunk made of additions only: when the lines that follow the
    header all begin with [+] and are as many as the header declares,
    [ExtractUpdatedLines] returns the consecutive numbers [startTo],
    [startTo + 1], ..., one for each of them. *)
Theorem X8_hunk_of_additions (stream stream' : Stream) (header : string)
    (hd : HunksDifferences) (ls : list string) :
  ExtractHunksDifferences stream header = Ok hd ->
  startTo hd + countTo hd <= Int.INT_MAX ->
  reads stream ls stream' ->
  Forall (fun l => starts_with l "+" = true) ls ->
  Z.of_nat (length ls) = countTo hd ->
  ExtractUpdatedLines stream header
    = Some (Ok (map (fun i => startTo hd + Z.of_nat i) (seq 0 (length ls)), stream')).
Proof.
  intros Hhd Hfit Hr Hplus Hlen.
  destruct (added_lines_of_additions ls Hplus (startTo hd)) as [Hd Ha].
  destruct (ExtractHunksDifferences_range _ _ _ Hhd) as (_ & _ & Hs & Hc).
  unfold ExtractUpdatedLines. rewrite Hhd. cbv zeta.
  rewrite int_add_fits by lia.
  rewrite (ExtractUpdatedLines_while_reads _ _ _ Hr); try (unfold fuel_of; lia); try int_lia.
  - simpl. now rewrite Z.eqb_refl, Ha.
  - replace (startTo hd + countTo hd - startTo hd) with (Z.of_nat (length ls)) by lia.
    now apply hunk_content_all_destination.
Qed.

Lemma X8_hunk_of_additions_witness :
  let header := "@@ -0,0 +1,3 @@" in
  ExtractUpdatedLines (stream_at 3 header ["+a"; "+b"; "+c"]) header
    = Some (Ok (map (fun i => 1 + Z.of_nat i) (seq 0 3), stream_at 6 "+c" [])).
Proof.
  intros header.
  apply (X8_hunk_of_additions
           (stream_at 3 header ["+a"; "+b"; "+c"]) (stream_at 6 "+c" []) header
           {| startFrom := 0; countFrom := 0; startTo := 1; countTo := 3 |}
           ["+a"; "+b"; "+c"]).
  - reflexivity.
  - vm_compute. discriminate.
  - repeat (eapply (reads_cons _ _ _ EmptyString); [reflexivity|]). apply reads_nil.
  - repeat (apply List.Forall_cons; [reflexivity|]). apply List.Forall_nil.
  - reflexivity.
Defined.

(* ===================================================================== *)
(** ** What a failure of [Parse] reports *)

Lemma ExtractHunksDifferences_throw (stream : Stream) (line : string) (e : exception) :
  ExtractHunksDifferences stream line = Throw e ->
  e = out_of_range \/
  e = UnifiedDiffParserException (currentLine_ stream) (lastLineRead_ stream) ErrorInvalidHunks.
Proof.
  unfold ExtractHunksDifferences.
  destruct (Regex.hunkRegex line) as [[[[m1 m2] m3] m4]|]; [|intros [= <-]; now right].
  assert (S : forall s e', stoi s = Throw e' -> e' = out_of_range).
  { intros s e'. unfold stoi. destruct (_ <=? _); [discriminate | now intros [= <-]]. }
  assert (C : forall m e', match m with Some x => stoi x | None => Ok 1 end = Throw e' ->
                           e' = out_of_range).
  { intros [x|] e'; [apply S | discriminate]. }
  destruct (stoi m1) as [v1|e1] eqn:E1; cbn [mbind result_bind bind];
    [|intros [= <-]; left; eapply S, E1].
  destruct (match m2 with Some m => stoi m | None => Ok 1 end) as [v2|e2] eqn:E2;
    cbn [mbind result_bind bind]; [|intros [= <-]; left; eapply C, E2].
  destruct (stoi m3) as [v3|e3] eqn:E3; cbn [mbind result_bind bind];
    [|intros [= <-]; left; eapply S, E3].
  destruct (match m4 with Some m => stoi m | None => Ok 1 end) as [v4|e4] eqn:E4;
    cbn [mbind result_bind bind]; [discriminate | intros [= <-]; left; eapply C, E4].
Qed.

Lemma Parse_body_throw (stream : Stream) (line : string) (st : ParseState) (e : exception) :
  lastLineRead_ stream = line ->
  Parse_body stream line st = Some (Throw e) ->
  match e with
  | UnifiedDiffParserException n text message =>
      match message with
      | ErrorExpectFromFilePrefix => starts_with text ToFilePrefix = false
      | ErrorCannotReadLine => text = EmptyString
      | ErrorNoFilenameBeforeHunks | ErrorInvalidHunks => starts_with text "@@" = true
      | ErrorContextHunks => True
      end
  | out_of_range => True
  | FileFilterException _ => False
  end.
Proof.
  intros Hlast. unfold Parse_body.
  destruct (starts_with line "diff --git"); [discriminate|].
  destruct (starts_with line FromFilePrefix).
  { destruct (GetLine stream EmptyString) as [[s1 nextLine] [|]] eqn:EG.
    - destruct (GetLine_fields _ _ _ _ _ EG) as [_ Ht].
      destruct (starts_with nextLine ToFilePrefix) eqn:Eto.
      + rewrite (ExtractTargetFile_spec _ Eto). discriminate.
      + intros [= <-]. now rewrite Ht.
    - destruct (GetLine_fields _ _ _ _ _ EG) as [_ Ht].
      intros [= <-]. rewrite Ht.
      destruct (GetLine_failed_text _ _ _ _ EG); assumption. }
  destruct (starts_with line "@@") eqn:Eat; [|discriminate].
  unfold FillUpdatedLines. destruct (files st) as [|f fs].
  { intros [= <-]. now rewrite Hlast. }
  unfold ExtractUpdatedLines.
  destruct (ExtractHunksDifferences stream line) as [hd|e'] eqn:Eh.
  - cbv zeta.
    destruct (ExtractUpdatedLines_while _ _ _ _ _ _) as [[[s' c'] u]|]; [|discriminate].
    cbn -[back_AddSelectedLines]. destruct (c' =? _); cbn -[back_AddSelectedLines];
      [discriminate | intros [= <-]; exact I].
  - cbn. intros [= <-].
    destruct (ExtractHunksDifferences_throw _ _ _ Eh) as [->| ->]; [exact I|].
    now rewrite Hlast.
Qed.

Lemma Parse_while_throw (fuel : nat) :
  forall stream line st e,
    Parse_while fuel stream line st = Some (Throw e) ->
    exists stream' line' st',
      lastLineRead_ stream' = line' /\ Parse_body stream' line' st' = Some (Throw e).
Proof.
  induction fuel as [|fuel IH]; intros stream line st e; [discriminate|].
  simpl. destruct (GetLine stream line) as [[s1 l1] [|]] eqn:EG; [|discriminate].
  destruct (GetLine_fields _ _ _ _ _ EG) as [_ Ht].
  destruct (Parse_body s1 l1 st) as [[[s2 st2]|e']|] eqn:EB; try discriminate; simpl.
  - apply IH.
  - intros [= <-]. now exists s1, l1, st.
Qed.

(** X9.  What a failure of [Parse] can be, and the text it carries.
    [Parse] throws nothing but a [UnifiedDiffParserException] or the
    [out_of_range] of [std::stoi]; the exception of the [THROW] macro is
    never raised.  [ErrorNoFilenameBeforeHunks] and [ErrorInvalidHunks]
    carry the text of a line that begins with [@@];
    [ErrorExpectFromFilePrefix] carries the text of a line that does not
    begin with the to-file marker; [ErrorCannotReadLine] carries an empty
    text. *)
Theorem X9_failures_of_Parse (istr : wistream) (e : exception) :
  Parse istr = Some (Throw e) ->
  match e with
  | UnifiedDiffParserException n text message =>
      match message with
      | ErrorExpectFromFilePrefix => starts_with text ToFilePrefix = false
      | ErrorCannotReadLine => text = EmptyString
      | ErrorNoFilenameBeforeHunks | ErrorInvalidHunks => starts_with text "@@" = true
      | ErrorContextHunks => True
      end
  | out_of_range => True
  | FileFilterException _ => False
  end.
Proof.
  unfold Parse. destruct (Parse_scan istr) as [[st|e']|] eqn:ES; try discriminate.
  - simpl. rewrite Parse_finish_ok. discriminate.
  - simpl. intros [= <-].
    destruct (Parse_while_throw _ _ _ _ _ ES) as (s' & l' & st' & Hl & HB).
    exact (Parse_body_throw _ _ _ _ Hl HB).
Qed.

Lemma X9_failures_of_Parse_witness :
  starts_with "@@ bad @@" "@@" = true.
Proof.
  exact (X9_failures_of_Parse
           (wistringstream (text_of_lines ["--- a"; "+++ b"; "@@ bad @@"]))
           (UnifiedDiffParserException 3 "@@ bad @@" ErrorInvalidHunks) eq_refl).
Defined.

(* ===================================================================== *)
(** ** Post-processing *)

(** X10.  [UpdateFilePathIfGitDetected] never throws: the [THROW] for a
    path without the prefix is unreachable, since the detection has
    checked every path.  It returns as many files as it was given, in the
    same order and with the same selected lines, and each path is the one
    given or the one given with [GitTargetPrefix] taken off its front. *)
Theorem X10_UpdateFilePathIfGitDetected_returns (fs : list File) (lines : list string)
    (gitHeader : bool) :
  exists out,
    UpdateFilePathIfGitDetected fs lines gitHeader = Ok out /\
    Forall2 (fun file file' =>
               GetSelectedLines file' = GetSelectedLines file /\
               (GetPath file' = GetPath file \/
                GetPath file = GitTargetPrefix +:+ GetPath file')) fs out.
Proof.
  rewrite UpdateFilePathIfGitDetected_ok. eexists. split; [reflexivity|].
  destruct (IsGitDetected fs lines gitHeader) eqn:E.
  - apply IsGitDetected_iff in E as (_ & Hfs & _).
    eapply List.Forall2_impl; [|apply Forall2_strip, Hfs].
    intros a b [Hp Hl]. auto.
  - apply Forall2_same. auto.
Qed.

(** X11.  [RemoveDevNull] filters the two vectors apart and keeps
    everything else.  A file is left exactly when it was there and its path
    is not the null-device path; a from-file line is left exactly when it
    was there and does not begin with the from-file marker followed by that
    path.  What is left is in the order it had, the pass over vectors put
    end to end is the passes over the parts put end to end, so that nothing
    is lost, doubled or moved, the files left do not depend on the lines
    nor the lines left on the files, and a second pass changes nothing. *)
Theorem X11_RemoveDevNull_filters (fs fs2 : list File) (lines lines2 : list string) :
  let fs' := fst (RemoveDevNull fs lines) in
  let lines' := snd (RemoveDevNull fs lines) in
  (forall file, In file fs' <-> In file fs /\ GetPath file <> DevNull) /\
  (forall line, In line lines' <->
     In line lines /\ starts_with line (FromFilePrefix +:+ DevNull) = false) /\
  sublist fs' fs /\ sublist lines' lines /\
  RemoveDevNull (fs ++ fs2) (lines ++ lines2) =
    (fs' ++ fst (RemoveDevNull fs2 lines2), lines' ++ snd (RemoveDevNull fs2 lines2)) /\
  (forall file, RemoveDevNull [file] [] =
     (if String.eqb (GetPath file) DevNull then [] else [file], [])) /\
  (forall line, RemoveDevNull [] [line] =
     ([], if starts_with line (FromFilePrefix +:+ DevNull) then [] else [line])) /\
  fst (RemoveDevNull fs lines2) = fs' /\
  snd (RemoveDevNull fs2 lines) = lines' /\
  RemoveDevNull fs' lines' = (fs', lines').
Proof.
  unfold RemoveDevNull, EraseIf. cbn [fst snd].
  assert (Hidem : forall (A : Type) (p : A -> bool) (l : list A),
            List.filter p (List.filter p l) = List.filter p l).
  { intros A p l. induction l as [|x l IH]; [reflexivity|]. simpl.
    destruct (p x) eqn:E; [simpl; now rewrite E, IH | exact IH]. }
  assert (Hsub : forall (A : Type) (p : A -> bool) (l : list A), sublist (List.filter p l) l).
  { intros A p l. induction l as [|x l IH]; [constructor|]. simpl.
    destruct (p x); now constructor. }
  split; [|split; [|split; [|split; [|split; [|split; [|split; [|split; [|split]]]]]]]].
  - intros file. rewrite filter_In, negb_true_iff, String.eqb_neq. reflexivity.
  - intros line. rewrite filter_In, negb_true_iff. reflexivity.
  - apply Hsub.
  - apply Hsub.
  - now rewrite !List.filter_app.
  - intros file. simpl. now destruct (String.eqb (GetPath file) DevNull).
  - intros line. simpl. now destruct (starts_with line _).
  - reflexivity.
  - reflexivity.
  - now rewrite !Hidem.
Qed.

(* ===================================================================== *)
(** ** [Parse] on whole texts *)

Lemma Parse_while_step (fuel : nat) (stream s1 s2 : Stream) (line l1 : string)
    (st st2 : ParseState) :
  (unread stream < fuel)%nat ->
  GetLine stream line = (s1, l1, true) ->
  Parse_body s1 l1 st = Some (Ok (s2, st2)) ->
  Parse_while fuel stream line st = Parse_while (fuel_of s2) s2 l1 st2.
Proof.
  intros Hfuel HG HB. destruct fuel as [|fuel]; [lia|].
  remember (fuel_of s2) as fuel2 eqn:Efuel.
  simpl. rewrite HG, HB. simpl. subst fuel2.
  pose proof (GetLine_ok_shorter _ _ _ _ HG).
  pose proof (Parse_body_not_longer _ _ _ _ _ HB).
  apply Parse_while_fuel; unfold fuel_of; lia.
Qed.

Lemma fuel_of_enough (stream : Stream) : (unread stream < fuel_of stream)%nat.
Proof. unfold fuel_of. lia. Qed.

Lemma fuel_of_positive (stream : Stream) : (0 < fuel_of stream)%nat.
Proof. unfold fuel_of. lia. Qed.

Lemma Parse_while_end (fuel : nat) (stream s1 : Stream) (line l1 : string) (st : ParseState) :
  (0 < fuel)%nat ->
  GetLine stream line = (s1, l1, false) ->
  Parse_while fuel stream line st = Some (Ok st).
Proof.
  intros Hfuel HG. destruct fuel as [|fuel]; [lia|]. simpl. now rewrite HG.
Qed.

Lemma string_forall_app (p : ascii -> bool) (a b : string) :
  string_forall p (a +:+ b) = string_forall p a && string_forall p b.
Proof.
  induction a as [|c a IH]; simpl; [reflexivity|]. now rewrite IH, andb_assoc.
Qed.

Lemma up_to_tab_no_tab (s : string) : no_tab s = true -> up_to_tab s = s.
Proof.
  unfold no_tab. induction s as [|c s IH]; simpl; [reflexivity|].
  intros H. apply andb_true_iff in H as [Hc Hs]. apply negb_true_iff in Hc.
  now rewrite Hc, (IH Hs).
Qed.

Lemma up_to_tab_stops (s rest : string) :
  no_tab s = true -> up_to_tab (s +:+ String tab rest) = s.
Proof.
  unfold no_tab. induction s as [|c s IH]; simpl; [reflexivity|].
  intros H. apply andb_true_iff in H as [Hc Hs]. apply negb_true_iff in Hc.
  now rewrite Hc, (IH Hs).
Qed.

(** The turn of the loop for the two lines that open a section. *)
Lemma Parse_body_section (n : Z) (text line path : string) (rest : list string)
    (st : ParseState) :
  starts_with line FromFilePrefix = true ->
  is_line path = true -> no_tab path = true ->
  Parse_body (stream_at n text ((ToFilePrefix +:+ path) :: rest)) line st =
    Some (Ok (stream_at (Int.incr n) (ToFilePrefix +:+ path) rest,
              {| files := files st ++ [File_new path];
                 sourceFileLines := sourceFileLines st ++ [line];
                 foundGitHeader := foundGitHeader st |})).
Proof.
  intros Hfrom Hline Htab.
  assert (Hgit : starts_with line "diff --git" = false).
  { eapply (starts_with_other_head line _ _ "-"%char "d"%char); [discriminate|exact Hfrom]. }
  unfold Parse_body. rewrite Hgit, Hfrom.
  rewrite GetLine_stream_at.
  2:{ unfold is_line in *. now rewrite string_forall_app, Hline. }
  rewrite starts_with_app, (ExtractTargetFile_spec _ (starts_with_app _ _)).
  unfold target_of. now rewrite string_drop_app, (up_to_tab_no_tab _ Htab).
Qed.

Lemma ExtractHunksDifferences_marker (stream : Stream) (header : string)
    (hd : HunksDifferences) :
  ExtractHunksDifferences stream header = Ok hd -> starts_with header "@@" = true.
Proof.
  unfold ExtractHunksDifferences, Regex.hunkRegex, Regex.literal.
  destruct (starts_with header "@@"); [reflexivity | discriminate].
Qed.

Lemma set_insert_last (x : Z) (acc : list Z) :
  Forall (fun a => a < x) acc -> set_insert x acc = acc ++ [x].
Proof.
  induction 1 as [|a acc Ha _ IH]; [reflexivity|]. simpl.
  destruct (Z.ltb_spec x a); [lia|]. destruct (Z.eqb_spec x a); [lia|]. now rewrite IH.
Qed.

Lemma fold_set_insert_sorted (u : list Z) :
  StronglySorted Z.lt u ->
  forall acc, Forall (fun a => Forall (fun x => a < x) u) acc ->
    fold_left (fun acc x => set_insert x acc) u acc = acc ++ u.
Proof.
  induction 1 as [|x u Hu IH Hx]; intros acc Hacc; simpl; [now rewrite app_nil_r|].
  rewrite set_insert_last.
  2:{ eapply List.Forall_impl; [|exact Hacc]. simpl. intros a Ha.
      now inversion Ha. }
  rewrite IH; [now rewrite <- app_assoc|].
  apply List.Forall_app. split.
  - eapply List.Forall_impl; [|exact Hacc]. simpl. intros a Ha. now inversion Ha.
  - constructor; [exact Hx | constructor].
Qed.

Lemma AddSelectedLines_new (path : string) (u : list Z) :
  StronglySorted Z.lt u ->
  AddSelectedLines (File_new path) u = {| GetPath := path; GetSelectedLines := u |}.
Proof.
  intros Hu. unfold AddSelectedLines, File_new. simpl.
  now rewrite (fold_set_insert_sorted u Hu []).
Qed.

Lemma back_AddSelectedLines_snoc (fs : list File) (f : File) (u : list Z) :
  back_AddSelectedLines (fs ++ [f]) u = fs ++ [AddSelectedLines f u].
Proof.
  induction fs as [|g fs IH]; [reflexivity|].
  change ((g :: fs) ++ [f]) with (g :: (fs ++ [f])).
  simpl. rewrite IH. destruct (fs ++ [f]) eqn:E; [|reflexivity].
  apply app_eq_nil in E as [_ E]. discriminate E.
Qed.

(** The loop of [Parse] over a from-file line, a to-file line, a header
    and the content of its hunk, these being all that is left of the
    text. *)
Lemma reads_stream_at_app (core : list string) :
  Forall (fun l => is_line l = true) core ->
  forall rest n text,
    exists n' text', reads (stream_at n text (core ++ rest)) core (stream_at n' text' rest).
Proof.
  induction 1 as [|l core Hl _ IH]; intros rest n text.
  - exists n, text. constructor.
  - destruct (IH rest (Int.incr n) l) as (n' & text' & Hr).
    exists n', text'. econstructor; [|exact Hr].
    apply (GetLine_stream_at n text EmptyString l (core ++ rest) Hl).
Qed.

(** The loop of [Parse] passes over lines that bear no marker and leaves
    its state as it is. *)
Lemma Parse_while_skipped (ls : list string) :
  Forall (fun l => is_skipped l = true) ls ->
  forall n text line st,
    Parse_while (fuel_of (stream_at n text ls)) (stream_at n text ls) line st = Some (Ok st).
Proof.
  induction 1 as [|l ls Hl _ IH]; intros n text line st.
  - apply (Parse_while_end _ _ _ _ _ st (fuel_of_positive _)
             (GetLine_stream_at_end n text line)).
  - unfold is_skipped in Hl.
    apply andb_true_iff in Hl as [Hl Ha]. apply andb_true_iff in Hl as [Hl Hf].
    apply andb_true_iff in Hl as [Hl Hg].
    apply negb_true_iff in Ha, Hf, Hg.
    assert (HB : Parse_body (stream_at (Int.incr n) l ls) l st
                 = Some (Ok (stream_at (Int.incr n) l ls, st))).
    { unfold Parse_body. now rewrite Hg, Hf, Ha. }
    rewrite (Parse_while_step _ _ _ _ _ _ _ _ (fuel_of_enough _)
               (GetLine_stream_at n text line l ls Hl) HB).
    apply IH.
Qed.

Lemma Parse_while_one_section (n : Z) (text line0 fromLine path header : string)
    (hd : HunksDifferences) (content trailing : list string) (st : ParseState) :
  starts_with fromLine FromFilePrefix = true -> is_line fromLine = true ->
  is_line path = true -> no_tab path = true ->
  is_line header = true ->
  (forall stream, ExtractHunksDifferences stream header = Ok hd) ->
  startTo hd + countTo hd <= Int.INT_MAX ->
  Forall (fun l => is_line l = true) content ->
  hunk_content (countTo hd) content ->
  Forall (fun l => is_skipped l = true) trailing ->
  let stream := stream_at n text
                  (fromLine :: (ToFilePrefix +:+ path) :: header :: content ++ trailing) in
  Parse_while (fuel_of stream) stream line0 st =
    Some (Ok {| files := files st ++
                  [{| GetPath := path;
                      GetSelectedLines := added_lines (startTo hd) content |}];
                sourceFileLines := sourceFileLines st ++ [fromLine];
                foundGitHeader := foundGitHeader st |}).
Proof.
  intros Hfrom Hfl Hpl Hpt Hhl Hhd Hfit Hcl Hcontent Htrail stream.
  pose proof (ExtractHunksDifferences_marker _ _ _ (Hhd (Stream_new at_end))) as Hat.
  set (n1 := Int.incr n). set (n2 := Int.incr n1). set (n3 := Int.incr n2).
  destruct (reads_stream_at_app content Hcl trailing n3 header) as (n' & t' & Hr).
  set (st1 := {| files := files st ++ [File_new path];
                 sourceFileLines := sourceFileLines st ++ [fromLine];
                 foundGitHeader := foundGitHeader st |}).
  set (st2 := {| files := files st ++
                   [AddSelectedLines (File_new path) (added_lines (startTo hd) content)];
                 sourceFileLines := sourceFileLines st ++ [fromLine];
                 foundGitHeader := foundGitHeader st |}).
  assert (HB1 : Parse_body (stream_at n1 fromLine
                              ((ToFilePrefix +:+ path) :: header :: content ++ trailing))
                  fromLine st
                = Some (Ok (stream_at n2 (ToFilePrefix +:+ path)
                              (header :: content ++ trailing), st1))).
  { apply (Parse_body_section n1 fromLine fromLine path (header :: content ++ trailing) st);
      assumption. }
  assert (HB2 : Parse_body (stream_at n3 header (content ++ trailing)) header st1
                = Some (Ok (stream_at n' t' trailing, st2))).
  { assert (Hgit : starts_with header "diff --git" = false).
    { eapply (starts_with_other_head header _ _ "@"%char "d"%char); [discriminate|exact Hat]. }
    assert (Hnf : starts_with header FromFilePrefix = false).
    { eapply (starts_with_other_head header _ _ "@"%char "-"%char); [discriminate|exact Hat]. }
    destruct (ExtractHunksDifferences_range _ _ _
                (Hhd (stream_at n3 header (content ++ trailing))))
      as (_ & _ & Hs & Hc).
    unfold Parse_body. rewrite Hgit, Hnf, Hat.
    unfold FillUpdatedLines, st1. cbn [files].
    destruct (files st ++ [File_new path]) as [|f0 fs0] eqn:Efs.
    { apply app_eq_nil in Efs as [_ Efs]. discriminate Efs. }
    rewrite <- Efs.
    unfold ExtractUpdatedLines. rewrite Hhd. cbv zeta.
    rewrite int_add_fits by lia.
    rewrite (ExtractUpdatedLines_while_reads _ _ _ Hr);
      try (unfold fuel_of; lia); try int_lia.
    - cbn -[AddSelectedLines back_AddSelectedLines]. rewrite Z.eqb_refl.
      cbn -[AddSelectedLines back_AddSelectedLines].
      now rewrite back_AddSelectedLines_snoc.
    - now replace (startTo hd + countTo hd - startTo hd) with (countTo hd) by lia. }
  unfold stream.
  rewrite (Parse_while_step _ _ _ _ _ _ _ _ (fuel_of_enough _)
             (GetLine_stream_at n text line0 fromLine _ Hfl) HB1).
  rewrite (Parse_while_step _ _ _ _ _ _ _ _ (fuel_of_enough _)
             (GetLine_stream_at n2 _ fromLine header (content ++ trailing) Hhl) HB2).
  rewrite (Parse_while_skipped trailing Htrail n' t' header st2).
  unfold st2.
  now rewrite (AddSelectedLines_new path _ (added_lines_sorted content (startTo hd))).
Qed.

(** X12.  [Parse] on a text of one section with one hunk.  Let the text
    be a from-file line, a to-file line naming [path] (no tab, not the
    null-device path), a header that [ExtractHunksDifferences] takes for
    [hd], [startTo + countTo] fitting an [int], the lines [content] of the
    hunk up to and including its last destination line, [countTo] of them
    being destination lines, and then any lines [trailing] that bear none
    of the three markers at their front, such as the removed lines or the
    no-newline marker that end the hunk; every line is ended by a line
    break.  Then [Parse] returns exactly one file, with the path [path]
    unchanged and, as selected lines, the numbers of the added lines of
    [content].  (A removed line behind the last destination line that
    begins with the from-file marker is not among such [trailing]
    lines.) *)
Theorem X12_Parse_one_section (fromLine path header : string) (hd : HunksDifferences)
    (content trailing : list string) :
  starts_with fromLine FromFilePrefix = true -> is_line fromLine = true ->
  is_line path = true -> no_tab path = true -> path <> DevNull ->
  is_line header = true ->
  (forall stream, ExtractHunksDifferences stream header = Ok hd) ->
  startTo hd + countTo hd <= Int.INT_MAX ->
  Forall (fun l => is_line l = true) content ->
  hunk_content (countTo hd) content ->
  Forall (fun l => is_skipped l = true) trailing ->
  Parse_text (text_of_lines
      (fromLine :: (ToFilePrefix +:+ path) :: header :: content ++ trailing))
    = Some (Ok [{| GetPath := path;
                   GetSelectedLines := added_lines (startTo hd) content |}]).
Proof.
  intros Hfrom Hfl Hpl Hpt Hpath Hhl Hhd Hfit Hcl Hcontent Htrail.
  unfold Parse_text, Parse, Parse_scan.
  change (Stream_new (wistringstream (text_of_lines
            (fromLine :: (ToFilePrefix +:+ path) :: header :: content ++ trailing))))
    with (stream_at 0 (String "000"%char EmptyString)
            (fromLine :: (ToFilePrefix +:+ path) :: header :: content ++ trailing)).
  rewrite (Parse_while_one_section 0 _ EmptyString fromLine path header hd content trailing
             ParseState_new); try assumption.
  cbn [mbind option_bind result_bind bind].
  rewrite Parse_finish_ok. unfold RemoveDevNull, EraseIf.
  cbn [files sourceFileLines foundGitHeader ParseState_new app List.filter GetPath].
  apply String.eqb_neq in Hpath. rewrite Hpath. reflexivity.
Qed.

Lemma X12_Parse_one_section_witness :
  Parse_text (text_of_lines
      ("--- a/src/main.cpp" :: (ToFilePrefix +:+ "b/src/main.cpp") :: "@@ -4,3 +7,3 @@"
         :: [" a"; "-b"; "+c"; "+d"] ++ ["-gone"; "\ No newline at end of file"]))
    = Some (Ok [{| GetPath := "b/src/main.cpp";
                   GetSelectedLines := added_lines 7 [" a"; "-b"; "+c"; "+d"] |}]).
Proof.
  apply (X12_Parse_one_section "--- a/src/main.cpp" "b/src/main.cpp" "@@ -4,3 +7,3 @@"
           {| startFrom := 4; countFrom := 3; startTo := 7; countTo := 3 |}
           [" a"; "-b"; "+c"; "+d"] ["-gone"; "\ No newline at end of file"]).
  - reflexivity.
  - reflexivity.
  - reflexivity.
  - reflexivity.
  - discriminate.
  - reflexivity.
  - intros stream. reflexivity.
  - vm_compute. discriminate.
  - repeat (apply List.Forall_cons; [reflexivity|]). apply List.Forall_nil.
  - apply (hunk_content_snoc [" a"; "-b"; "+c"] "+d"). reflexivity.
  - repeat (apply List.Forall_cons; [reflexivity|]). apply List.Forall_nil.
Defined.

(** X13.  [Parse] on a git diff of one file.  Let the text be a line
    that begins with [diff --git], a from-file line that begins with the
    from-file marker followed by [a/], a to-file line naming [b/] followed
    by [path], a header and, as in X12, the lines [content] of its hunk up
    to and including the last destination line and then lines [trailing]
    that bear none of the three markers at their front.  Then [Parse]
    returns exactly one file whose path is [path], the prefix [b/] taken
    off, with the numbers of the added lines of [content]. *)
Theorem X13_Parse_one_git_section (gitLine fromLine path header : string)
    (hd : HunksDifferences) (content trailing : list string) :
  starts_with gitLine "diff --git" = true -> is_line gitLine = true ->
  starts_with fromLine (FromFilePrefix +:+ "a/") = true -> is_line fromLine = true ->
  is_line path = true -> no_tab path = true ->
  is_line header = true ->
  (forall stream, ExtractHunksDifferences stream header = Ok hd) ->
  startTo hd + countTo hd <= Int.INT_MAX ->
  Forall (fun l => is_line l = true) content ->
  hunk_content (countTo hd) content ->
  Forall (fun l => is_skipped l = true) trailing ->
  Parse_text (text_of_lines
      (gitLine :: fromLine :: (ToFilePrefix +:+ GitTargetPrefix +:+ path) :: header
         :: content ++ trailing))
    = Some (Ok [{| GetPath := path;
                   GetSelectedLines := added_lines (startTo hd) content |}]).
Proof.
  intros Hgit Hgl Hfrom Hfl Hpl Hpt Hhl Hhd Hfit Hcl Hcontent Htrail.
  assert (Hfrom' : starts_with fromLine FromFilePrefix = true).
  { eapply starts_with_trans; [exact Hfrom | reflexivity]. }
  set (rest := fromLine :: (ToFilePrefix +:+ GitTargetPrefix +:+ path) :: header
                 :: content ++ trailing).
  set (st0 := {| files := []; sourceFileLines := []; foundGitHeader := true |}).
  assert (HB0 : forall n, Parse_body (stream_at n gitLine rest) gitLine ParseState_new
                  = Some (Ok (stream_at n gitLine rest, st0))).
  { intros n. unfold Parse_body. now rewrite Hgit. }
  unfold Parse_text, Parse, Parse_scan.
  change (Stream_new (wistringstream (text_of_lines (gitLine :: rest))))
    with (stream_at 0 (String "000"%char EmptyString) (gitLine :: rest)).
  rewrite (Parse_while_step _ _ _ _ _ _ _ _ (fuel_of_enough _)
             (GetLine_stream_at 0 _ EmptyString gitLine rest Hgl) (HB0 _)).
  unfold rest.
  rewrite (Parse_while_one_section _ _ gitLine fromLine (GitTargetPrefix +:+ path)
             header hd content trailing st0); try assumption.
  cbn [mbind option_bind result_bind bind].
  rewrite Parse_finish_ok. unfold RemoveDevNull, EraseIf.
  cbn [files sourceFileLines foundGitHeader st0 app List.filter GetPath].
  replace (String.eqb (GitTargetPrefix +:+ path) DevNull) with false by reflexivity.
  cbn [negb].
  destruct (negb (starts_with fromLine (FromFilePrefix +:+ DevNull))).
  - unfold IsGitDetected. cbn [negb forallb GetPath andb].
    rewrite starts_with_app, Hfrom. cbn [andb map].
    unfold strip_git_prefix, SetPath, erase_head. cbn [GetPath GetSelectedLines].
    now rewrite string_drop_app.
  - unfold IsGitDetected. cbn [negb forallb GetPath andb].
    rewrite starts_with_app. cbn [andb map].
    unfold strip_git_prefix, SetPath, erase_head. cbn [GetPath GetSelectedLines].
    now rewrite string_drop_app.
Qed.

Lemma X13_Parse_one_git_section_witness :
  Parse_text (text_of_lines
      ("diff --git a/x.cpp b/x.cpp" :: "--- a/x.cpp"
         :: (ToFilePrefix +:+ GitTargetPrefix +:+ "x.cpp") :: "@@ -4,3 +7,3 @@"
         :: [" a"; "-b"; "+c"; "+d"] ++ ["-gone"; "\ No newline at end of file"]))
    = Some (Ok [{| GetPath := "x.cpp";
                   GetSelectedLines := added_lines 7 [" a"; "-b"; "+c"; "+d"] |}]).
Proof.
  apply (X13_Parse_one_git_section "diff --git a/x.cpp b/x.cpp" "--- a/x.cpp" "x.cpp"
           "@@ -4,3 +7,3 @@"
           {| startFrom := 4; countFrom := 3; startTo := 7; countTo := 3 |}
           [" a"; "-b"; "+c"; "+d"] ["-gone"; "\ No newline at end of file"]).
  - reflexivity.
  - reflexivity.
  - reflexivity.
  - reflexivity.
  - reflexivity.
  - reflexivity.
  - reflexivity.
  - intros stream. reflexivity.
  - vm_compute. discriminate.
  - repeat (apply List.Forall_cons; [reflexivity|]). apply List.Forall_nil.
  - apply (hunk_content_snoc [" a"; "-b"; "+c"] "+d"). reflexivity.
  - repeat (apply List.Forall_cons; [reflexivity|]). apply List.Forall_nil.
Defined.

Lemma Parse_while_plain (ls : list string) :
  Forall (fun l => is_line l = true) ls ->
  Forall (fun l => starts_with l FromFilePrefix = false /\ starts_with l "@@" = false) ls ->
  forall n text line st,
    exists gitHeader,
      Parse_while (fuel_of (stream_at n text ls)) (stream_at n text ls) line st =
        Some (Ok {| files := files st; sourceFileLines := sourceFileLines st;
                    foundGitHeader := gitHeader |}).
Proof.
  induction 1 as [|l ls Hl _ IH]; intros Hplain n text line st.
  - exists (foundGitHeader st).
    rewrite (Parse_while_end _ _ _ _ _ st (fuel_of_positive _)
               (GetLine_stream_at_end n text line)).
    now destruct st.
  - inversion Hplain as [|? ? [Hnf Hna] Hplain']; subst.
    assert (HB : exists st', Parse_body (stream_at (Int.incr n) l ls) l st
                   = Some (Ok (stream_at (Int.incr n) l ls, st')) /\
                 files st' = files st /\ sourceFileLines st' = sourceFileLines st).
    { unfold Parse_body. rewrite Hnf, Hna.
      destruct (starts_with l "diff --git"); eexists; (split; [reflexivity|]); auto. }
    destruct HB as (st' & HB & Ef & Es).
    rewrite (Parse_while_step _ _ _ _ _ _ _ _ (fuel_of_enough _)
               (GetLine_stream_at n text line l ls Hl) HB).
    destruct (IH Hplain' (Int.incr n) l l st') as [g Hg].
    exists g. now rewrite Hg, Ef, Es.
Qed.

(** X14.  A text without sections: when no line of the text begins with
    the from-file marker or with [@@] (in particular, when the text is
    empty), [Parse] returns no file and throws nothing, whether lines
    beginning with [diff --git] occur or not. *)
Theorem X14_Parse_without_sections (ls : list string) :
  Forall (fun l => is_line l = true) ls ->
  Forall (fun l => starts_with l FromFilePrefix = false /\ starts_with l "@@" = false) ls ->
  Parse_text (text_of_lines ls) = Some (Ok []).
Proof.
  intros Hl Hplain. unfold Parse_text, Parse, Parse_scan.
  change (Stream_new (wistringstream (text_of_lines ls)))
    with (stream_at 0 (String "000"%char EmptyString) ls).
  destruct (Parse_while_plain ls Hl Hplain 0 (String "000"%char EmptyString)
              EmptyString ParseState_new) as [g ->].
  cbn [mbind option_bind result_bind bind]. rewrite Parse_finish_ok.
  cbn. now destruct (IsGitDetected [] [] g).
Qed.

Lemma X14_Parse_without_sections_witness :
  Parse_text (text_of_lines ["diff --git a/x b/x"; "index 83db48f..bf269f4 100644"; ""])
    = Some (Ok []).
Proof.
  apply (X14_Parse_without_sections
           ["diff --git a/x b/x"; "index 83db48f..bf269f4 100644"; ""]).
  - repeat (apply List.Forall_cons; [reflexivity|]). apply List.Forall_nil.
  - repeat (apply List.Forall_cons; [split; reflexivity|]). apply List.Forall_nil.
Defined.

(* ===================================================================== *)
(** ** The header and the to-file line, once more *)

(** X15.  The numbers of an accepted header.  When
    [ExtractHunksDifferences] returns, the line begins with [@@], each of
    the four numbers lies between 0 and [INT_MAX], and the result is the
    same whatever the state of the stream: the stream only serves the
    error message. *)
Theorem X15_header_numbers (stream stream' : Stream) (line : string) (hd : HunksDifferences) :
  ExtractHunksDifferences stream line = Ok hd ->
  starts_with line "@@" = true /\
  (0 <= startFrom hd <= Int.INT_MAX) /\ (0 <= countFrom hd <= Int.INT_MAX) /\
  (0 <= startTo hd <= Int.INT_MAX) /\ (0 <= countTo hd <= Int.INT_MAX) /\
  ExtractHunksDifferences stream' line = Ok hd.
Proof.
  intros H. split; [eapply ExtractHunksDifferences_marker, H|].
  destruct (ExtractHunksDifferences_range _ _ _ H) as (H1 & H2 & H3 & H4).
  repeat (split; [assumption|]).
  unfold ExtractHunksDifferences in *.
  destruct (Regex.hunkRegex line); [exact H | discriminate H].
Qed.

Lemma X15_header_numbers_witness :
  starts_with "@@ -12 +14,3 @@ int main()" "@@" = true /\
  (0 <= 12 <= Int.INT_MAX) /\ (0 <= 1 <= Int.INT_MAX) /\
  (0 <= 14 <= Int.INT_MAX) /\ (0 <= 3 <= Int.INT_MAX) /\
  ExtractHunksDifferences (stream_at 9 "other" []) "@@ -12 +14,3 @@ int main()"
    = Ok {| startFrom := 12; countFrom := 1; startTo := 14; countTo := 3 |}.
Proof.
  apply (X15_header_numbers (Stream_new at_end) (stream_at 9 "other" [])
           "@@ -12 +14,3 @@ int main()"
           {| startFrom := 12; countFrom := 1; startTo := 14; countTo := 3 |}).
  reflexivity.
Defined.

(** X17.  A hunk belongs to the file registered last.  When
    [FillUpdatedLines] returns, the files in front of the last one are
    untouched, and the last one has received the lines that
    [ExtractUpdatedLines] returned for the header; the stream is the one
    that [ExtractUpdatedLines] left. *)
Theorem X17_hunk_goes_to_last_file (line : string) (fs fs' : list File) (f : File)
    (stream stream' : Stream) :
  FillUpdatedLines line (fs ++ [f]) stream = Some (Ok (fs', stream')) ->
  exists updatedLines,
    ExtractUpdatedLines stream line = Some (Ok (updatedLines, stream')) /\
    fs' = fs ++ [AddSelectedLines f updatedLines].
Proof.
  unfold FillUpdatedLines.
  destruct (fs ++ [f]) as [|f0 fs0] eqn:E.
  { apply app_eq_nil in E as [_ E]. discriminate E. }
  rewrite <- E.
  destruct (ExtractUpdatedLines stream line) as [[[u s']|e]|]; try discriminate.
  cbn -[back_AddSelectedLines]. intros [= <- <-].
  exists u. split; [reflexivity | apply back_AddSelectedLines_snoc].
Qed.

Lemma X17_hunk_goes_to_last_file_witness :
  let f1 := {| GetPath := "one"; GetSelectedLines := [3] |} in
  let f2 := {| GetPath := "two"; GetSelectedLines := [] |} in
  exists updatedLines,
    ExtractUpdatedLines (stream_at 5 "@@ -1 +7,2 @@" ["+a"; "+b"]) "@@ -1 +7,2 @@"
      = Some (Ok (updatedLines, stream_at 7 "+b" [])) /\
    [f1; {| GetPath := "two"; GetSelectedLines := [7; 8] |}]
      = [f1] ++ [AddSelectedLines f2 updatedLines].
Proof.
  intros f1 f2.
  apply (X17_hunk_goes_to_last_file "@@ -1 +7,2 @@" [f1] _ f2
           (stream_at 5 "@@ -1 +7,2 @@" ["+a"; "+b"]) (stream_at 7 "+b" [])).
  vm_compute. reflexivity.
Defined.

(** X18.  [ExtractTargetFile] gives back the path that a to-file line was
    written with: for a path without a tab, the line made of the to-file
    marker and the path yields the path, and so does that line followed by
    a tab and anything, such as a time stamp.  On a line shorter than the
    marker it throws [out_of_range]; [Parse] only calls it on lines that
    begin with the marker. *)
Theorem X18_ExtractTargetFile_round_trip (path stamp line : string) :
  (no_tab path = true ->
   ExtractTargetFile (ToFilePrefix +:+ path) = Ok path /\
   ExtractTargetFile (ToFilePrefix +:+ path +:+ String tab stamp) = Ok path) /\
  ((String.length line < String.length ToFilePrefix)%nat ->
   ExtractTargetFile line = Throw out_of_range).
Proof.
  split.
  - intros Htab.
    rewrite !(ExtractTargetFile_spec _ (starts_with_app _ _)). unfold target_of.
    rewrite !string_drop_app.
    now rewrite (up_to_tab_no_tab _ Htab), (up_to_tab_stops _ _ Htab).
  - intros Hshort. unfold ExtractTargetFile, substr.
    apply Nat.ltb_lt in Hshort.
    destruct (find tab line) as [k|]; now rewrite Hshort.
Qed.

Lemma X18_ExtractTargetFile_round_trip_witness :
  (ExtractTargetFile (ToFilePrefix +:+ "b/src/a b.cpp") = Ok "b/src/a b.cpp" /\
   ExtractTargetFile (ToFilePrefix +:+ "b/src/a b.cpp" +:+ String tab "2024-01-01 10:00")
     = Ok "b/src/a b.cpp") /\
  ExtractTargetFile "++" = Throw out_of_range.
Proof.
  split.
  - apply (proj1 (X18_ExtractTargetFile_round_trip "b/src/a b.cpp" "2024-01-01 10:00" "++")).
    reflexivity.
  - apply (proj2 (X18_ExtractTargetFile_round_trip "b/src/a b.cpp" "2024-01-01 10:00" "++")).
    vm_compute. lia.
Defined.

(* ===================================================================== *)
(** ** The line counter is for diagnostics only *)

Lemma GetLine_same_input (s s' : Stream) (str str' : string) :
  istr_ s = istr_ s' ->
  istr_ (fst (fst (GetLine s str))) = istr_ (fst (fst (GetLine s' str'))) /\
  snd (GetLine s str) = snd (GetLine s' str') /\
  (snd (GetLine s str) = true -> snd (fst (GetLine s str)) = snd (fst (GetLine s' str'))).
Proof.
  intros E. unfold GetLine, getline. rewrite <- E.
  destruct (eofbit (istr_ s) || failbit (istr_ s)); [simpl; repeat split; discriminate|].
  destruct (extract_line (rdbuf (istr_ s))) as [l [rest|]]; simpl; auto.
Qed.

Lemma ExtractUpdatedLines_while_same_input (fuel : nat) :
  forall s s' str str' cur e upd s1 c u,
    istr_ s = istr_ s' ->
    ExtractUpdatedLines_while fuel s str cur e upd = Some (s1, c, u) ->
    exists s1', ExtractUpdatedLines_while fuel s' str' cur e upd = Some (s1', c, u) /\
                istr_ s1 = istr_ s1'.
Proof.
  induction fuel as [|fuel IH]; intros s s' str str' cur e upd s1 c u E; [discriminate|].
  simpl. destruct (cur <? e); [|intros [= <- <- <-]; now exists s'].
  destruct (GetLine_same_input s s' str str' E) as (Ei & Eok & El).
  destruct (GetLine s str) as [[sa la] oka], (GetLine s' str') as [[sb lb] okb].
  simpl in Ei, Eok, El. subst okb. destruct oka.
  - rewrite <- (El eq_refl).
    destruct (ExtractUpdatedLines_body la cur upd) as [c' u']. now apply IH.
  - intros [= <- <- <-]. now exists sb.
Qed.

Lemma Parse_body_same_input (s s' : Stream) (line : string) (st st1 : ParseState)
    (s1 : Stream) :
  istr_ s = istr_ s' ->
  Parse_body s line st = Some (Ok (s1, st1)) ->
  exists s1', Parse_body s' line st = Some (Ok (s1', st1)) /\ istr_ s1 = istr_ s1'.
Proof.
  intros E. unfold Parse_body.
  destruct (starts_with line "diff --git"); [intros [= <- <-]; now exists s'|].
  destruct (starts_with line FromFilePrefix).
  { destruct (GetLine_same_input s s' EmptyString EmptyString E) as (Ei & Eok & El).
    destruct (GetLine s EmptyString) as [[sa la] oka],
             (GetLine s' EmptyString) as [[sb lb] okb].
    simpl in Ei, Eok, El. subst okb. destruct oka; [|discriminate].
    rewrite <- (El eq_refl).
    destruct (starts_with la ToFilePrefix); [|discriminate].
    destruct (ExtractTargetFile la); [|discriminate].
    cbn. intros [= <- <-]. now exists sb. }
  destruct (starts_with line "@@"); [|intros [= <- <-]; now exists s'].
  unfold FillUpdatedLines. destruct (files st) as [|f fs]; [discriminate|].
  unfold ExtractUpdatedLines.
  assert (Eh : forall hd, ExtractHunksDifferences s line = Ok hd ->
                          ExtractHunksDifferences s' line = Ok hd).
  { intros hd. unfold ExtractHunksDifferences.
    destruct (Regex.hunkRegex line); [auto | discriminate]. }
  destruct (ExtractHunksDifferences s line) as [hd|e]; [|discriminate].
  rewrite (Eh hd eq_refl). cbv zeta.
  assert (Ef : fuel_of s = fuel_of s') by (unfold fuel_of; now rewrite E).
  rewrite <- Ef.
  destruct (ExtractUpdatedLines_while (fuel_of s) s EmptyString _ _ _)
    as [[[sa ca] ua]|] eqn:EW; [|discriminate].
  destruct (ExtractUpdatedLines_while_same_input _ _ s' _ EmptyString _ _ _ _ _ _ E EW)
    as (sb & -> & Ei).
  cbn -[back_AddSelectedLines]. destruct (ca =? _); cbn -[back_AddSelectedLines];
    [|discriminate].
  intros [= <- <-]. now exists sb.
Qed.

Lemma Parse_while_same_input (fuel : nat) :
  forall s s' line line' st r,
    istr_ s = istr_ s' ->
    Parse_while fuel s line st = Some (Ok r) ->
    Parse_while fuel s' line' st = Some (Ok r).
Proof.
  induction fuel as [|fuel IH]; intros s s' line line' st r E; [discriminate|].
  simpl.
  destruct (GetLine_same_input s s' line line' E) as (Ei & Eok & El).
  destruct (GetLine s line) as [[sa la] oka], (GetLine s' line') as [[sb lb] okb].
  simpl in Ei, Eok, El. subst okb. destruct oka; [|auto].
  rewrite <- (El eq_refl).
  destruct (Parse_body sa la st) as [[[s2 st2]|e]|] eqn:EB; try discriminate.
  destruct (Parse_body_same_input _ sb _ _ _ _ Ei EB) as (s2' & -> & E2).
  simpl. now apply IH.
Qed.

(** X16.  The line counter and the text kept for diagnostics have no part
    in a result: a line in front of the text that begins with none of
    [diff --git], the from-file marker and [@@] changes nothing, the text
    behind it yields the same files with the same selected lines, although
    every line number is one higher. *)
Theorem X16_leading_line_is_skipped (l text : string) (r : list File) :
  is_line l = true ->
  starts_with l "diff --git" = false ->
  starts_with l FromFilePrefix = false ->
  starts_with l "@@" = false ->
  (Parse_text (l +:+ nl +:+ text) = Some (Ok r) <-> Parse_text text = Some (Ok r)).
Proof.
  intros Hl Hg Hf Ha.
  set (s0 := Stream_new (wistringstream (l +:+ nl +:+ text))).
  set (s1 := {| istr_ := wistringstream text; currentLine_ := Int.incr 0; lastLineRead_ := l |}).
  assert (HG : GetLine s0 EmptyString = (s1, l, true)).
  { unfold GetLine, getline, s0, s1, Stream_new, wistringstream.
    cbn [istr_ rdbuf eofbit failbit orb currentLine_].
    now rewrite (extract_line_app l text Hl). }
  assert (HB : Parse_body s1 l ParseState_new = Some (Ok (s1, ParseState_new))).
  { unfold Parse_body. now rewrite Hg, Hf, Ha. }
  assert (Hscan : forall st, Parse_scan (wistringstream (l +:+ nl +:+ text)) = Some (Ok st) <->
                             Parse_scan (wistringstream text) = Some (Ok st)).
  { intros st. unfold Parse_scan. fold s0.
    rewrite (Parse_while_step _ _ _ _ _ _ _ _ (fuel_of_enough _) HG HB).
    change (fuel_of s1) with (fuel_of (Stream_new (wistringstream text))).
    split; apply Parse_while_same_input; reflexivity. }
  unfold Parse_text, Parse. split; intros H.
  - destruct (Parse_scan (wistringstream (l +:+ nl +:+ text))) as [[st|e]|];
      try discriminate H.
    now rewrite (proj1 (Hscan st) eq_refl).
  - destruct (Parse_scan (wistringstream text)) as [[st|e]|]; try discriminate H.
    now rewrite (proj2 (Hscan st) eq_refl).
Qed.

Lemma X16_leading_line_is_skipped_witness :
  Parse_text ("Only in src: notes.txt" +:+ nl +:+
              text_of_lines ["--- a"; "+++ b"; "@@ -1 +1 @@"; "+x"])
    = Some (Ok [{| GetPath := "b"; GetSelectedLines := [1] |}]) <->
  Parse_text (text_of_lines ["--- a"; "+++ b"; "@@ -1 +1 @@"; "+x"])
    = Some (Ok [{| GetPath := "b"; GetSelectedLines := [1] |}]).
Proof.
  apply (X16_leading_line_is_skipped "Only in src: notes.txt"
           (text_of_lines ["--- a"; "+++ b"; "@@ -1 +1 @@"; "+x"])
           [{| GetPath := "b"; GetSelectedLines := [1] |}]); reflexivity.
Defined.
